(** * Plugin download-history reconstruction: a shallow embedding

    The repository holds three Node.js scripts:

    - [extract-plugin-stats.js]: the strict pipeline (neighbour-check
      anomaly filter, beta versions excluded, history keyed by timestamp,
      daily growth computed);
    - the script hard-wired to one plugin (simple pipeline: running-floor
      anomaly filter interleaved with skipping of repeated calendar days,
      history as an array sorted by date);
    - [generate-download-chart.js]: the rendering path, of which the
      growth-rate and rolling-average series are modelled.

    Conventions of the embedding.
    - A JavaScript object used as a dictionary (a snapshot, a plugin record,
      a version map) is a [gmap string _] of its own properties; a read of
      a snapshot at a name that is not an own key falls through to
      [Object.prototype] ([plugin_of]), and an assignment to the key
      [__proto__] creates no own property ([Js.put]).  The history object
      of the strict
      pipeline, whose key order is observable, is an association list in
      insertion order.
    - Integers (download counts, epoch milliseconds) are [Z]; they stay far
      below 2^53, where JavaScript numbers are exact.  Quotients and
      [Math.round] are taken in an arithmetic that is a parameter of the
      development (class [JsArith]), instantiated with exact rationals for
      evaluation.
    - The calendar day [YYYY-MM-DD] of a timestamp is represented by its day
      number since the epoch: the ISO date string and the day number
      determine each other, and [new Date(date)] of a date-only string is
      midnight UTC of that day.
    - A commit timestamp is an integer number of milliseconds, for which
      [toISOString] is defined; a plugin entry of a snapshot is an object.
    - [console.log] / [console.error] output and the [git show] calls are a
      list of events carried in the loop state. *)

From Stdlib Require Import ZArith QArith Qround Lia.
From stdpp Require Import base list gmap strings sorting.

Local Open Scope Z_scope.

(** ** JavaScript values and operators used by the scripts *)

Module Js.

(** JSON values stored in a plugin record. *)
Inductive jsval : Type :=
| JNull
| JBool (b : bool)
| JNum (n : Z)
| JStr (s : string).

(** ToBoolean. *)
Definition truthy (v : jsval) : bool :=
  match v with
  | JNull => false
  | JBool b => b
  | JNum n => negb (n =? 0)
  | JStr s => negb (String.eqb s "")
  end.

(** [a || b] where [a] is a property read ([None] is [undefined]). *)
Definition or (a : option jsval) (b : jsval) : jsval :=
  match a with
  | Some v => if truthy v then v else b
  | None => b
  end.

(** Numeric reading of a download count.  The statistics file stores
    counts as JSON integers; values of another type at that key are
    outside the data model and read as 0. *)
Definition as_count (v : jsval) : Z :=
  match v with
  | JNum n => n
  | _ => 0
  end.

(** [s.endsWith(suffix)]. *)
Definition endsWith (s suffix : string) : bool :=
  let n := String.length s in
  let k := String.length suffix in
  (k <=? n)%nat && String.eqb (String.substring (n - k) k s) suffix.

(** [Array.prototype.sort(cmp)]: a stable sort; [cmp a b > 0] means that
    [a] goes after [b].  Insertion from the right keeps equal elements
    in their original order. *)
Section Sort.
Context {A : Type} (cmp : A → A → Z).

Fixpoint insert_sorted (x : A) (l : list A) : list A :=
  match l with
  | [] => [x]
  | y :: l' => if 0 <? cmp x y then y :: insert_sorted x l' else x :: l
  end.

Fixpoint sort (l : list A) : list A :=
  match l with
  | [] => []
  | x :: l' => insert_sorted x (sort l')
  end.
End Sort.

(** Property assignment [obj[k] = v] on an object whose own keys are kept
    in insertion order: an existing key keeps its position. *)
Fixpoint set {V : Type} (k : Z) (v : V) (obj : list (Z * V)) : list (Z * V) :=
  match obj with
  | [] => [(k, v)]
  | (k', v') :: obj' =>
      if k' =? k then (k, v) :: obj' else (k', v') :: set k v obj'
  end.

(** Order in which [Object.keys] and [JSON.stringify] visit the own keys
    of such an object: array indices (integers from 0 to 2^32 - 2) in
    ascending order first, then the other keys in insertion order. *)
Definition is_array_index (k : Z) : bool := (0 <=? k) && (k <? 2 ^ 32 - 1).

Definition own_keys {V : Type} (obj : list (Z * V)) : list Z :=
  merge_sort Z.le (List.filter is_array_index obj.*1)
    ++ List.filter (λ k, negb (is_array_index k)) obj.*1.

(** The property names that an object made by [JSON.parse] or by an
    object literal inherits from [Object.prototype]. *)
Definition object_prototype_keys : list string :=
  ["constructor"; "toString"; "toLocaleString"; "valueOf"; "hasOwnProperty";
   "isPrototypeOf"; "propertyIsEnumerable"; "__defineGetter__";
   "__defineSetter__"; "__lookupGetter__"; "__lookupSetter__"; "__proto__"].

Definition inherited (key : string) : bool :=
  bool_decide (key ∈ object_prototype_keys).

(** Assignment [obj[key] = v] to such an object, as a map of its own
    properties: the key [__proto__] reaches the setter inherited from
    [Object.prototype], which creates no own property. *)
Definition put {V : Type} (key : string) (v : V) (obj : gmap string V)
  : gmap string V :=
  if String.eqb key "__proto__" then obj else <[key := v]> obj.

End Js.

Import Js.

(** ** Data model *)

Abbreviation PluginRecord := (gmap string jsval).
Abbreviation Snapshot := (gmap string PluginRecord).

Record CommitRecord : Type := mkCommit {
  c_hash : string;
  c_timestamp : Z          (* milliseconds: [parseInt(%at) * 1000] *)
}.

Definition ms_per_day : Z := 1000 * 60 * 60 * 24.

(** [new Date(ts).toISOString().split("T")[0]], as a day number. *)
Definition date_of (ts : Z) : Z := ts / ms_per_day.

(** The read [statsData[pluginName]]; [None] is [undefined].  A name that
    is not an own key of the snapshot is looked up in [Object.prototype]:
    for each of its property names the read yields a function, or for
    [__proto__] the prototype object, which is truthy, has no [downloads]
    property and no enumerable property, so that the scripts go on with it
    as with an empty plugin record. *)
Definition plugin_of (statsData : Snapshot) (pluginName : string)
  : option PluginRecord :=
  match statsData !! pluginName with
  | Some pluginData => Some pluginData
  | None => if inherited pluginName then Some ∅ else None
  end.

(** [pluginData.downloads || 0]. *)
Definition downloads_of (pluginData : PluginRecord) : Z :=
  as_count (Js.or (pluginData !! "downloads") (JNum 0)).

Definition reserved (key : string) : bool :=
  String.eqb key "downloads" || String.eqb key "updated".

(** Version map of the simple pipeline:
    [Object.keys(pluginData).filter(key => key !== "downloads" && key !== "updated")
       .reduce((obj, key) => { obj[key] = pluginData[key]; return obj; }, {})]. *)
Definition versions_inclusive (pluginData : PluginRecord) : gmap string jsval :=
  map_fold (λ key v obj, if negb (reserved key) then Js.put key v obj else obj)
           ∅ pluginData.

(** Version map of the strict pipeline: the [for (const key in pluginData)]
    loop with its two [continue]s; the second component counts the
    "Skipping beta version" messages. *)
Definition versions_strict_loop (pluginData : PluginRecord)
  : gmap string jsval * list string :=
  map_fold (λ key v acc,
              if reserved key then acc
              else if endsWith key "-beta" then (acc.1, acc.2 ++ [key])
              else (Js.put key v acc.1, acc.2))
           (∅, []) pluginData.

Definition versions_strict (pluginData : PluginRecord) : gmap string jsval :=
  (versions_strict_loop pluginData).1.

(** Observable effects of the extraction loops: the [git show] process
    invocations and the console messages. *)
Inductive Event : Type :=
| GitShow (hash : string)
| LogNotFound (hash : string)
| LogDuplicateDate (date : Z)
| LogAddedFirst (date downloads : Z)
| LogHigher (hash : string) (downloads lastValid : Z)
| LogAdded (date downloads : Z)
| LogBeta (key : string)
| LogCollected (date downloads : Z) (nversions : nat)
| LogError (hash : string).

(** Outcome of one iteration of a [for ... of] body: [break], or fall
    through / [continue] to the next commit. *)
Inductive Flow (S : Type) : Type :=
| Break (s : S)
| Next (s : S).
Arguments Break {S} s.
Arguments Next {S} s.

(** [for (const commit of commits) { body }]. *)
Fixpoint for_of {S : Type} (body : S → CommitRecord → Flow S)
    (s : S) (commits : list CommitRecord) : S :=
  match commits with
  | [] => s
  | commit :: older =>
      match body s commit with
      | Break s' => s'
      | Next s' => for_of body s' older
      end
  end.

(** ** The simple pipeline (running floor, one entry per calendar day) *)

Module Simple.

Record Entry : Type := mkEntry {
  date : Z;
  hash : string;
  downloads : Z;
  versions : gmap string jsval
}.

Record State : Type := mkState {
  history : list Entry;
  lastValidDownloads : Z;
  foundFirstEntry : bool;
  log : list Event
}.

Definition init : State := mkState [] 0 false [].

Definition say (s : State) (evs : list Event) : State :=
  mkState (history s) (lastValidDownloads s) (foundFirstEntry s) (log s ++ evs).

Definition entry_of (commit : CommitRecord) (pluginData : PluginRecord) : Entry :=
  mkEntry (date_of (c_timestamp commit)) (c_hash commit)
          (downloads_of pluginData) (versions_inclusive pluginData).

(** [history.some((entry) => entry.date === date)]. *)
Definition has_date (h : list Entry) (d : Z) : bool :=
  existsb (λ entry, date entry =? d) h.

Section Run.
(** [show hash] is the parsed content of the statistics file at a
    revision; [None] when [git show] or [JSON.parse] throws. *)
Variable show : string → option Snapshot.
Variable pluginName : string.

(** Body of the commit loop, lines 32-111: the [try] block with its
    [break] and [continue]s, and the [catch]. *)
Definition body (s : State) (commit : CommitRecord) : Flow State :=
  let s := say s [GitShow (c_hash commit)] in
  match show (c_hash commit) with
  | None => Next (say s [LogError (c_hash commit)])
  | Some statsData =>
      match plugin_of statsData pluginName with
      | None => Break (say s [LogNotFound (c_hash commit)])
      | Some pluginData =>
          let downloads := downloads_of pluginData in
          let date := date_of (c_timestamp commit) in
          if has_date (history s) date then
            Next (say s [LogDuplicateDate date])
          else if negb (foundFirstEntry s) then
            Next (mkState (history s ++ [entry_of commit pluginData])
                          downloads true
                          (log s ++ [LogAddedFirst date downloads]))
          else if downloads >? lastValidDownloads s then
            Next (say s [LogHigher (c_hash commit) downloads
                                   (lastValidDownloads s)])
          else
            Next (mkState (history s ++ [entry_of commit pluginData])
                          downloads (foundFirstEntry s)
                          (log s ++ [LogAdded date downloads]))
      end
  end.

Definition loop (commits : list CommitRecord) : State :=
  for_of body init commits.

(** [(a, b) => new Date(a.date) - new Date(b.date)]. *)
Definition by_date (a b : Entry) : Z :=
  date a * ms_per_day - date b * ms_per_day.

(** The array written to the history file. *)
Definition run (commits : list CommitRecord) : list Entry :=
  Js.sort by_date (history (loop commits)).
End Run.

End Simple.

(** Sequential policy in the words of the specification: walk the
    candidates newest to oldest, accept the first unconditionally, then
    accept a candidate iff its count is at most [lastValidDownloads], which
    an accepted candidate replaces. *)
Fixpoint sequential_from (lastValid : Z) (candidates : list Simple.Entry)
  : list Simple.Entry :=
  match candidates with
  | [] => []
  | p :: older =>
      if Simple.downloads p <=? lastValid
      then p :: sequential_from (Simple.downloads p) older
      else sequential_from lastValid older
  end.

Definition sequential_policy (candidates : list Simple.Entry) : list Simple.Entry :=
  match candidates with
  | [] => []
  | p :: older => p :: sequential_from (Simple.downloads p) older
  end.

(** Data points extracted by the commit loop on its own (lines 33-50 of the
    simple script, without the day and anomaly checks that follow): one
    per commit whose snapshot parses and where [statsData[pluginName]] is
    defined, up to the first snapshot where it is not. *)
Fixpoint extracted (show : string → option Snapshot) (pluginName : string)
    (commits : list CommitRecord) : list Simple.Entry :=
  match commits with
  | [] => []
  | commit :: older =>
      match show (c_hash commit) with
      | None => extracted show pluginName older
      | Some statsData =>
          match plugin_of statsData pluginName with
          | None => []
          | Some pluginData =>
              Simple.entry_of commit pluginData
                :: extracted show pluginName older
          end
      end
  end.

(** ** Number arithmetic

    Quotients and [Math.round] act on JavaScript numbers.  The pipelines
    are written against this interface; every statement about them holds
    for each of its implementations. *)
Class JsArith : Type := {
  num : Type;
  of_int : Z → num;               (* an integer as a number *)
  div : num → num → num;          (* [a / b] *)
  positive : num → bool;          (* [a > 0] *)
  round : num → Z                 (* [Math.round(a)] *)
}.

(** Exact rationals; [Math.round] rounds to the nearest integer, halves
    upwards. *)
Definition Qpositive (q : Q) : bool :=
  if Qlt_le_dec 0 q then true else false.
Definition Qround_half_up (q : Q) : Z := Qfloor (q + (1 # 2))%Q.

#[export] Instance exact_arith : JsArith := {|
  num := Q;
  of_int := inject_Z;
  div := Qdiv;
  positive := Qpositive;
  round := Qround_half_up
|}.

(** ** The strict pipeline (neighbour check, history keyed by timestamp) *)

Module Strict.

Record DataPoint : Type := mkPoint {
  hash : string;
  timestamp : Z;
  date : Z;
  downloads : Z;
  versions : gmap string jsval
}.

Record Collected : Type := mkCollected {
  rawData : list DataPoint;
  log : list Event
}.

Definition say (s : Collected) (evs : list Event) : Collected :=
  mkCollected (rawData s) (log s ++ evs).

Definition point_of (commit : CommitRecord) (pluginData : PluginRecord)
  : DataPoint :=
  mkPoint (c_hash commit) (c_timestamp commit)
          (date_of (c_timestamp commit)) (downloads_of pluginData)
          (versions_strict pluginData).

Section Collect.
Variable show : string → option Snapshot.
Variable pluginName : string.

(** First phase, lines 42-95. *)
Definition body (s : Collected) (commit : CommitRecord) : Flow Collected :=
  let s := say s [GitShow (c_hash commit)] in
  match show (c_hash commit) with
  | None => Next (say s [LogError (c_hash commit)])
  | Some statsData =>
      match plugin_of statsData pluginName with
      | None => Break (say s [LogNotFound (c_hash commit)])
      | Some pluginData =>
          let dataPoint := point_of commit pluginData in
          Next (mkCollected
                  (rawData s ++ [dataPoint])
                  (log s
                     ++ (LogBeta <$> (versions_strict_loop pluginData).2)
                     ++ [LogCollected (date dataPoint) (downloads dataPoint)
                                      (size (versions dataPoint))]))
      end
  end.

Definition collect (commits : list CommitRecord) : Collected :=
  for_of body (mkCollected [] []) commits.

(** [rawData.sort((a, b) => b.timestamp - a.timestamp)]. *)
Definition newest_first (a b : DataPoint) : Z := timestamp b - timestamp a.

Definition sorted_raw (commits : list CommitRecord) : list DataPoint :=
  Js.sort newest_first (rawData (collect commits)).
End Collect.

(** Second phase, lines 104-139.  [isValid] for the point at index [i];
    on natural numbers [i < rawData.length - 1] is written
    [i + 1 < rawData.length]. *)
Definition is_valid (rawData : list DataPoint) (i : nat) (current : DataPoint)
  : bool :=
  let isValid := true in
  let isValid :=
    if (0 <? i)%nat then
      match rawData !! (i - 1)%nat with
      | Some prev => if downloads current >? downloads prev then false else isValid
      | None => isValid
      end
    else isValid in
  let isValid :=
    if (i + 1 <? length rawData)%nat then
      match rawData !! (i + 1)%nat with
      | Some next => if downloads current <? downloads next then false else isValid
      | None => isValid
      end
    else isValid in
  isValid.

Record Filtered : Type := mkFiltered {
  validData : list DataPoint;
  skippedCount : nat
}.

(** [for (let i = 0; i < rawData.length; i++)], with [n] iterations left. *)
Fixpoint filter_loop (rawData : list DataPoint) (n i : nat) (acc : Filtered)
  : Filtered :=
  match n with
  | O => acc
  | S n' =>
      match rawData !! i with
      | None => acc
      | Some current =>
          filter_loop rawData n' (S i)
            (if is_valid rawData i current
             then mkFiltered (validData acc ++ [current]) (skippedCount acc)
             else mkFiltered (validData acc) (S (skippedCount acc)))
      end
  end.

Definition anomaly_filter (rawData : list DataPoint) : Filtered :=
  filter_loop rawData (length rawData) 0 (mkFiltered [] 0).

(** Third phase, lines 144-175. *)
Record HistoryEntry : Type := mkHistoryEntry {
  h_date : Z;
  h_downloads : Z;
  h_dailyGrowth : Z;
  h_versions : gmap string jsval    (* [...point.versions] *)
}.

Record Growth : Type := mkGrowth {
  history : list (Z * HistoryEntry);
  previousDownloads : Z;
  previousTimestamp : Z
}.

Section Growth.
Context `{JsArith}.

Definition dailyGrowth_of (validData : list DataPoint) (i : nat)
    (point : DataPoint) (g : Growth) : Z :=
  if (i =? length validData - 1)%nat then downloads point
  else
    let daysDifference :=
      div (of_int (timestamp point - previousTimestamp g))
          (of_int (1000 * 60 * 60 * 24)) in
    let downloadDifference := downloads point - previousDownloads g in
    if positive daysDifference
    then round (div (of_int downloadDifference) daysDifference)
    else 0.

(** [for (let i = validData.length - 1; i >= 0; i--)]; the first
    argument is [i + 1]. *)
Fixpoint growth_loop (validData : list DataPoint) (n : nat) (g : Growth)
  : Growth :=
  match n with
  | O => g
  | S i =>
      match validData !! i with
      | None => g
      | Some point =>
          let dailyGrowth := dailyGrowth_of validData i point g in
          growth_loop validData i
            (mkGrowth
               (Js.set (timestamp point)
                       (mkHistoryEntry (date point) (downloads point)
                                       dailyGrowth (versions point))
                       (history g))
               (downloads point) (timestamp point))
      end
  end.

Definition build_history (validData : list DataPoint)
  : list (Z * HistoryEntry) :=
  history (growth_loop validData (length validData) (mkGrowth [] 0 0)).

Definition run (show : string → option Snapshot) (pluginName : string)
    (commits : list CommitRecord) : list (Z * HistoryEntry) :=
  build_history (validData (anomaly_filter (sorted_raw show pluginName commits))).
End Growth.

End Strict.

(** ** The rendering path: rolling averages of the growth-rate series *)

Module Chart.

(** [arr.slice(start, stop)] for [0 <= start]. *)
Definition slice {A : Type} (start stop : Z) (arr : list A) : list A :=
  take (Z.to_nat stop - Z.to_nat start) (drop (Z.to_nat start) arr).

Section Rolling.
Context `{JsArith}.

(** One iteration of lines 138-153 (and 159-174): the [y] value pushed
    for index [i]. *)
Definition rolling_at (windowSize : Z) (derivativeData : list Z) (i : Z) : Z :=
  let startIdx := Z.max 0 (i - windowSize + 1) in
  let windowValues := slice startIdx (i + 1) derivativeData in
  let sum := foldl (λ acc val, acc + val) 0 windowValues in
  let avg :=
    if (0 <? length windowValues)%nat
    then div (of_int sum) (of_int (Z.of_nat (length windowValues)))
    else of_int 0 in
  round avg.

(** [for (let i = 0; i < derivativeData.length; i++)], [n] iterations
    left. *)
Fixpoint rolling_loop (windowSize : Z) (derivativeData : list Z)
    (n : nat) (i : Z) (acc : list Z) : list Z :=
  match n with
  | O => acc
  | S n' =>
      rolling_loop windowSize derivativeData n' (i + 1)
                   (acc ++ [rolling_at windowSize derivativeData i])
  end.

Definition rollingAverage (windowSize : Z) (derivativeData : list Z) : list Z :=
  rolling_loop windowSize derivativeData (length derivativeData) 0 [].

Definition rollingAverageData7Day := rollingAverage 7.
Definition rollingAverageData30Day := rollingAverage 30.
End Rolling.

End Chart.

(** ** Auxiliary notions used in the statements *)

(** The sequential policy resumed in the middle of a walk. *)
Definition resume (found : bool) (lastValid : Z)
    (candidates : list Simple.Entry) : list Simple.Entry :=
  if found then sequential_from lastValid candidates
  else sequential_policy candidates.

(** Two states of the simple loop that differ at most in their log. *)
Definition unchanged (s s' : Simple.State) : Prop :=
  Simple.history s' = Simple.history s
  ∧ Simple.lastValidDownloads s' = Simple.lastValidDownloads s
  ∧ Simple.foundFirstEntry s' = Simple.foundFirstEntry s.

(** The state after an entry was pushed and became the floor. *)
Definition pushed (e : Simple.Entry) (s s' : Simple.State) : Prop :=
  Simple.history s' = Simple.history s ++ [e]
  ∧ Simple.lastValidDownloads s' = Simple.downloads e
  ∧ Simple.foundFirstEntry s' = true.

(** The assignments [history[point.timestamp] = {...}] of the third phase
    of the strict pipeline in the words of the specification: the points
    are visited from oldest to newest, the first has its own count as
    growth, each later one the rounded quotient of the download difference
    by the elapsed days with respect to the point before it, or 0 when no
    time has elapsed. *)
Section GrowthSpec.
Context `{JsArith}.

Definition growth_between (prev cur : Strict.DataPoint) : Z :=
  let daysDifference :=
    div (of_int (Strict.timestamp cur - Strict.timestamp prev))
        (of_int 86400000) in
  if positive daysDifference
  then round (div (of_int (Strict.downloads cur - Strict.downloads prev))
                  daysDifference)
  else 0.

Definition written (point : Strict.DataPoint) (dailyGrowth : Z)
  : Z * Strict.HistoryEntry :=
  (Strict.timestamp point,
   Strict.mkHistoryEntry (Strict.date point) (Strict.downloads point)
                         dailyGrowth (Strict.versions point)).

Fixpoint growth_chain (prev : Strict.DataPoint)
    (points : list Strict.DataPoint) : list (Z * Strict.HistoryEntry) :=
  match points with
  | [] => []
  | p :: later => written p (growth_between prev p) :: growth_chain p later
  end.

Definition growth_writes (points : list Strict.DataPoint)
  : list (Z * Strict.HistoryEntry) :=
  match points with
  | [] => []
  | p :: later => written p (Strict.downloads p) :: growth_chain p later
  end.
End GrowthSpec.

(** A sequence of property assignments applied to an object. *)
Definition store {V : Type} (obj : list (Z * V)) (writes : list (Z * V))
  : list (Z * V) :=
  foldl (λ o w, Js.set w.1 w.2 o) obj writes.

(** ** Concrete histories used in examples *)

Definition day (n : Z) : Z := n * ms_per_day.

(** A snapshot holding one plugin with the given download count. *)
Definition stats (pluginName : string) (downloads : Z) : Snapshot :=
  {[ pluginName := {[ "downloads" := JNum downloads ]} ]}.

(** A repository as a table from revision to snapshot. *)
Definition repo (revs : list (string * Snapshot)) : string → option Snapshot :=
  λ hash, (list_to_map revs : gmap string Snapshot) !! hash.

Definition example_record : PluginRecord :=
  {[ "downloads" := JNum 10; "updated" := JStr "x";
     "1.0.0" := JNum 5; "1.1.0-beta" := JNum 2 ]}.

(** A record with an own field [__proto__], as [JSON.parse] creates it
    from the text [{"downloads": 10, "__proto__": 5, "1.0.0": 2}]. *)
Definition proto_record : PluginRecord :=
  {[ "downloads" := JNum 10; "__proto__" := JNum 5; "1.0.0" := JNum 2 ]}.

(** Four daily commits, newest first, with counts 5, 1, 10, 7. *)
Definition zigzag_commits : list CommitRecord :=
  [mkCommit "d4" (day 4); mkCommit "d3" (day 3);
   mkCommit "d2" (day 2); mkCommit "d1" (day 1)].
Definition zigzag_repo : string → option Snapshot :=
  repo [("d4", stats "p" 5); ("d3", stats "p" 1);
        ("d2", stats "p" 10); ("d1", stats "p" 7)].

(** Three commits, newest first: day 5 with 100 downloads, then two commits
    on day 4 with 200 and 50 downloads. *)
Definition sameday_commits : list CommitRecord :=
  [mkCommit "a" (day 5); mkCommit "b" (day 4 + 3600000); mkCommit "c" (day 4)].
Definition sameday_repo : string → option Snapshot :=
  repo [("a", stats "p" 100); ("b", stats "p" 200); ("c", stats "p" 50)].

(** A history in which the plugin is missing from the middle commit. *)
Definition gap_commits : list CommitRecord :=
  [mkCommit "n" (day 3); mkCommit "m" (day 2); mkCommit "o" (day 1)].
Definition gap_repo : string → option Snapshot :=
  repo [("n", stats "p" 30); ("m", stats "q" 20); ("o", stats "p" 10)].


(** The end-to-end scenario of the specification: counts 500, 300, 100 at
    days 30, 20, 0, newest first. *)
Definition scenario_commits : list CommitRecord :=
  [mkCommit "t30" (day 30); mkCommit "t20" (day 20); mkCommit "t0" (day 0)].
Definition scenario_repo : string → option Snapshot :=
  repo [("t30", stats "p" 500); ("t20", stats "p" 300); ("t0", stats "p" 100)].

(** Two validated points, newest first: 150 downloads at day 10 and 100 at
    day 0. *)
Definition ten_days : list Strict.DataPoint :=
  [Strict.mkPoint "b" (day 10) 10 150 ∅; Strict.mkPoint "a" (day 0) 0 100 ∅].

(** ** The report of the simple script ([generateChart]) *)

Module Report.

(** [data.map((entry) => entry.date)] and [entry.downloads]. *)
Definition labels (data : list Simple.Entry) : list Z := Simple.date <$> data.
Definition values (data : list Simple.Entry) : list Z :=
  Simple.downloads <$> data.

(** [data.map((entry, index) => index === 0 ? 0
       : entry.downloads - data[index - 1].downloads)];
    [data[index - 1]] exists for every [index >= 1] that the map visits. *)
Definition increases (data : list Simple.Entry) : list Z :=
  imap (λ index entry,
          if (index =? 0)%nat then 0
          else match data !! (index - 1)%nat with
               | Some previous => Simple.downloads entry - Simple.downloads previous
               | None => 0
               end)
       data.

(** [data[data.length - 1]?.downloads || 0], the "Total Downloads". *)
Definition total (data : list Simple.Entry) : Z :=
  from_option Simple.downloads 0 (last data).

End Report.

(** ** The chart script: data points, version releases, colours, datasets *)

Module Render.

(** An entry of the history file: [{date, data: {downloads, ...}}]. *)
Record FileEntry : Type := mkFileEntry {
  f_date : Z;                        (* the calendar day of [entry.date] *)
  f_data : gmap string jsval
}.

Record Point : Type := mkPoint {
  date : Z;                          (* [new Date(entry.date)], milliseconds *)
  downloads : Z;
  versions : gmap string jsval
}.

(** The [map] callback of lines 25-34. *)
Definition point_of (entry : FileEntry) : Point :=
  mkPoint (f_date entry * ms_per_day) (downloads_of (f_data entry))
          (versions_inclusive (f_data entry)).

Definition by_date (a b : Point) : Z := date a - date b.

(** Lines 24-35; the argument is [Object.entries(historicalData)]. *)
Definition dataPoints (historicalData : list (Z * FileEntry)) : list Point :=
  Js.sort by_date ((λ kv, point_of kv.2) <$> historicalData).

Definition downloadCounts (points : list Point) : list Z := downloads <$> points.


Record Release : Type := mkRelease {
  version : string;
  r_date : Z;
  index : nat;
  r_downloads : Z
}.

Record Releases : Type := mkReleases {
  versionReleases : list Release;
  processedVersions : gset string;
  versionIndices : list nat
}.

(** [Object.keys(obj)].  The keys of one object are visited in the order
    in which the map enumerates them, which need not be the order in which
    the properties were created; the releases found at one data point are
    therefore determined up to their order among themselves. *)
Definition keys_of (obj : gmap string jsval) : list string :=
  (map_to_list obj).*1.

(** Body of [versions.forEach((version) => ...)], lines 80-89. *)
Definition note_version (point : Point) (idx : nat) (st : Releases)
    (v : string) : Releases :=
  if decide (v ∈ processedVersions st) then st
  else mkReleases
         (versionReleases st ++ [mkRelease v (date point) idx (downloads point)])
         ({[v]} ∪ processedVersions st)
         (versionIndices st ++ [idx]).

(** Body of [dataPoints.forEach((point, index) => ...)], lines 77-91. *)
Definition visit_point (st : Releases) (ip : nat * Point) : Releases :=
  foldl (note_version ip.2 ip.1) st (keys_of (versions ip.2)).

Definition releases (points : list Point) : Releases :=
  foldl visit_point (mkReleases [] ∅ []) (imap pair points).

Definition baseColors : list string :=
  ["#0066cc"; "#cc0000"; "#009900"; "#9900cc"; "#ff9900";
   "#00cccc"; "#cc0099"; "#666600"; "#ff0099"; "#006666"].

(** [for (let i = 0; i < count; i++) colors.push(baseColors[i % baseColors.length])],
    with [n] iterations left; the index is always within [baseColors]. *)
Fixpoint colors_loop (n i : nat) (colors : list string) : list string :=
  match n with
  | O => colors
  | S n' =>
      colors_loop n' (S i)
        (colors ++ [default "" (baseColors !! (i mod length baseColors)%nat)])
  end.

Definition generateColors (count : nat) : list string := colors_loop count 0 [].

Record Dataset : Type := mkDataset {
  label : string;
  data : list (option Z);            (* [None] is [null] *)
  borderColor : option string        (* [None] is [undefined] *)
}.

(** [Array(startIdx).fill(null)
       .concat(downloadCounts.slice(startIdx, endIdx))
       .concat(Array(dates.length - endIdx).fill(null))];
    [endIdx] never exceeds [dates.length], the number of data points. *)
Definition segment (counts : list Z) (startIdx endIdx : nat)
  : list (option Z) :=
  replicate startIdx None
    ++ (Some <$> Chart.slice (Z.of_nat startIdx) (Z.of_nat endIdx) counts)
    ++ replicate (length counts - endIdx) None.

(** Body of [for (let i = 0; i <= versionIndices.length; i++)], lines
    177-200: the dataset pushed in round [i], if any.  [versionIndices[i - 1]],
    [versionIndices[i]] and [versionReleases[i - 1]] are read only at
    positions that exist. *)
Definition startIdx_at (rel : Releases) (i : nat) : nat :=
  if (i =? 0)%nat then 0%nat
  else default 0%nat (versionIndices rel !! (i - 1)%nat).

Definition endIdx_at (rel : Releases) (counts : list Z) (i : nat) : nat :=
  if (i =? length (versionIndices rel))%nat then length counts
  else default 0%nat (versionIndices rel !! i).

Definition dataset_at (rel : Releases) (versionColors : list string)
    (counts : list Z) (i : nat) : option Dataset :=
  let startIdx := startIdx_at rel i in
  let endIdx := endIdx_at rel counts i in
  if (startIdx <? endIdx)%nat then
    let version :=
      if (i =? 0)%nat then "Initial"
      else from_option version "" (versionReleases rel !! (i - 1)%nat) in
    Some (mkDataset ("v" +:+ version) (segment counts startIdx endIdx)
                    (versionColors !! (i mod length versionColors)%nat))
  else None.

(** The loop itself, with [n] rounds left. *)
Fixpoint datasets_loop (rel : Releases) (versionColors : list string)
    (counts : list Z) (n i : nat) (datasets : list Dataset) : list Dataset :=
  match n with
  | O => datasets
  | S n' =>
      datasets_loop rel versionColors counts n' (S i)
        (match dataset_at rel versionColors counts i with
         | Some dataset => datasets ++ [dataset]
         | None => datasets
         end)
  end.

Definition datasets (points : list Point) : list Dataset :=
  let rel := releases points in
  datasets_loop rel (generateColors (length (versionReleases rel)))
                (downloadCounts points)
                (S (length (versionIndices rel))) 0 [].

(** The colour shown beside each release in the version table (lines
    438-445) and on its annotation line (lines 496-507):
    [versionColors[i]] for the [i]-th release. *)
Definition legend (points : list Point) : list (string * option string) :=
  let rel := releases points in
  let versionColors := generateColors (length (versionReleases rel)) in
  imap (λ i v, ("v" +:+ version v, versionColors !! i)) (versionReleases rel).

End Render.

(** The entry written by the strict script for one key of the history
    object, as the chart script reads it back:
    [{date: point.date, data: {downloads, dailyGrowth, ...point.versions}}].
    In the object literal a spread property replaces an earlier one of the
    same name. *)
Definition data_object (e : Strict.HistoryEntry) : gmap string jsval :=
  Strict.h_versions e
    ∪ {[ "downloads" := JNum (Strict.h_downloads e);
         "dailyGrowth" := JNum (Strict.h_dailyGrowth e) ]}.

Definition file_entry (e : Strict.HistoryEntry) : Render.FileEntry :=
  Render.mkFileEntry (Strict.h_date e) (data_object e).

(** A release records the first data point that lists its version. *)
Definition first_release (points : list Render.Point) (r : Render.Release)
  : Prop :=
  ∃ p, points !! Render.index r = Some p
       ∧ is_Some (Render.versions p !! Render.version r)
       ∧ Render.r_date r = Render.date p
       ∧ Render.r_downloads r = Render.downloads p
       ∧ ∀ j p', (j < Render.index r)%nat → points !! j = Some p' →
                 Render.versions p' !! Render.version r = None.

(** What holds of the release records while the points before position
    [visited] have been visited completely. *)
Definition releases_inv (points : list Render.Point) (visited : nat)
    (st : Render.Releases) : Prop :=
  Render.versionIndices st = Render.index <$> Render.versionReleases st
  ∧ NoDup (Render.version <$> Render.versionReleases st)
  ∧ (∀ v, v ∈ Render.processedVersions st
          ↔ v ∈ Render.version <$> Render.versionReleases st)
  ∧ StronglySorted le (Render.index <$> Render.versionReleases st)
  ∧ Forall (λ r, (Render.index r ≤ visited)%nat) (Render.versionReleases st)
  ∧ Forall (first_release points) (Render.versionReleases st)
  ∧ (∀ j p v, (j < visited)%nat → points !! j = Some p →
              is_Some (Render.versions p !! v) →
              v ∈ Render.processedVersions st).

(** Differences between consecutive values, starting after [prev]. *)
Fixpoint steps (prev : Z) (values : list Z) : list Z :=
  match values with
  | [] => []
  | x :: later => (x - prev) :: steps x later
  end.

(** [Object.entries(obj)]: the own properties in the order of
    [Object.keys]. *)
Definition entries_of {V : Type} (obj : list (Z * V)) : list (Z * V) :=
  omap (λ k, snd <$> list_find (λ kv, kv.1 = k) obj) (Js.own_keys obj).

(** [Object.entries(historicalData)] for the file written by the strict
    script from [history]: [JSON.stringify] writes the properties in the
    order of [Object.keys], and [JSON.parse] creates them in the order of
    the text. *)
Definition history_file (history : list (Z * Strict.HistoryEntry))
  : list (Z * Render.FileEntry) :=
  (λ kv, (kv.1, file_entry kv.2)) <$> entries_of history.

(** The data point that the strict script reads from one commit, if its
    snapshot parses and [statsData[pluginName]] is defined. *)
Definition point_read (show : string → option Snapshot) (pluginName : string)
    (commit : CommitRecord) : option Strict.DataPoint :=
  statsData ← show (c_hash commit);
  pluginData ← plugin_of statsData pluginName;
  Some (Strict.point_of commit pluginData).

(** * Properties *)

(** ** Strings *)

Lemma substring_all (s : string) : String.substring 0 (String.length s) s = s.
Proof. induction s as [|a s IH]; simpl; [done | by rewrite IH]. Qed.

Lemma substring_after_prefix (pre suffix : string) :
  String.substring (String.length pre) (String.length suffix) (pre +:+ suffix)
  = suffix.
Proof. induction pre as [|a pre IH]; simpl; [apply substring_all | done]. Qed.

Lemma substring_split (s : string) (m k : nat) :
  (m + k = String.length s)%nat →
  s = String.substring 0 m s +:+ String.substring m k s.
Proof.
  revert m. induction s as [|a s IH]; intros m Hlen; simpl in *.
  - assert (m = 0%nat) as -> by lia. by assert (k = 0%nat) as -> by lia.
  - destruct m as [|m]; simpl in *.
    + subst k. simpl. by rewrite substring_all.
    + change (String a s
              = String a (String.substring 0 m s +:+ String.substring m k s)).
      f_equal. apply IH. lia.
Qed.

Lemma length_append (s t : string) :
  String.length (s +:+ t) = (String.length s + String.length t)%nat.
Proof. induction s as [|a s IH]; simpl; [done | by rewrite IH]. Qed.

(** [endsWith] decides "is of the form [pre ++ suffix]". *)
Lemma endsWith_spec (s suffix : string) :
  endsWith s suffix = true ↔ ∃ pre, s = pre +:+ suffix.
Proof.
  unfold endsWith. rewrite andb_true_iff, Nat.leb_le, String.eqb_eq. split.
  - intros [Hle Hsub].
    exists (String.substring 0 (String.length s - String.length suffix) s).
    etrans; [apply (substring_split s
                      (String.length s - String.length suffix)
                      (String.length suffix)); lia|].
    by rewrite Hsub.
  - intros [pre ->]. rewrite length_append. split; [lia|].
    replace (String.length pre + String.length suffix - String.length suffix)%nat
      with (String.length pre) by lia.
    apply substring_after_prefix.
Qed.

Lemma reserved_spec (key : string) :
  reserved key = true ↔ key = "downloads" ∨ key = "updated".
Proof. unfold reserved. by rewrite orb_true_iff, !String.eqb_eq. Qed.

(** ** Version maps *)

Lemma versions_inclusive_lookup (pluginData : PluginRecord) (key : string) :
  versions_inclusive pluginData !! key
  = if reserved key || String.eqb key "__proto__" then None
    else pluginData !! key.
Proof.
  unfold versions_inclusive.
  apply (map_fold_weak_ind (λ obj m,
           obj !! key
           = if reserved key || String.eqb key "__proto__" then None
             else m !! key)).
  - destruct (_ || _); apply lookup_empty.
  - intros i x m obj Hi IH. unfold Js.put.
    destruct (decide (i = key)) as [->|Hne].
    + destruct (reserved key); simpl; [done|].
      destruct (String.eqb key "__proto__"); simpl; [done|].
      by rewrite !lookup_insert_eq.
    + rewrite (lookup_insert_ne m) by done.
      destruct (reserved i); simpl; [done|].
      destruct (String.eqb i "__proto__"); [done|].
      by rewrite lookup_insert_ne.
Qed.

Lemma versions_strict_lookup (pluginData : PluginRecord) (key : string) :
  versions_strict pluginData !! key
  = if reserved key || String.eqb key "__proto__" || endsWith key "-beta"
    then None else pluginData !! key.
Proof.
  unfold versions_strict, versions_strict_loop.
  apply (map_fold_weak_ind (λ acc m,
           acc.1 !! key
           = if reserved key || String.eqb key "__proto__"
                || endsWith key "-beta"
             then None else m !! key)).
  - simpl. destruct (_ || _); apply lookup_empty.
  - intros i x m acc Hi IH. unfold Js.put.
    destruct (decide (i = key)) as [->|Hne].
    + destruct (reserved key); simpl; [done|].
      destruct (String.eqb key "__proto__"), (endsWith key "-beta");
        simpl in *; try done.
      by rewrite !lookup_insert_eq.
    + rewrite (lookup_insert_ne m) by done.
      destruct (reserved i); simpl; [done|].
      destruct (endsWith i "-beta"); simpl; [done|].
      destruct (String.eqb i "__proto__"); [done|].
      simpl. by rewrite lookup_insert_ne.
Qed.

(** A version map never has an own key [__proto__] or a reserved key. *)
Lemma versions_strict_dropped (pluginData : PluginRecord) (key : string) :
  reserved key || String.eqb key "__proto__" = true →
  versions_strict pluginData !! key = None.
Proof. intros Hkey. by rewrite versions_strict_lookup, Hkey. Qed.

(** C8.  The assignment [obj[key] = pluginData[key]] stores nothing for
    the key [__proto__]: on the record
    [{downloads: 10, "__proto__": 5, "1.0.0": 2}], whose [__proto__] is an
    own field, neither reserved nor a beta key, both version maps are
    [{"1.0.0": 2}]. *)
Theorem proto_version_dropped :
  proto_record !! "__proto__" = Some (JNum 5)
  ∧ reserved "__proto__" = false
  ∧ endsWith "__proto__" "-beta" = false
  ∧ versions_inclusive proto_record = {[ "1.0.0" := JNum 2 ]}
  ∧ versions_strict proto_record = {[ "1.0.0" := JNum 2 ]}
  ∧ versions_inclusive proto_record !! "__proto__" = None
  ∧ versions_strict proto_record !! "__proto__" = None.
Proof. split_and!; by vm_compute. Qed.

(** X21.  The version map of the simple script holds exactly the fields
    of the plugin record whose key is none of [downloads], [updated] and
    [__proto__], with their values; the version map of the strict script
    holds exactly those of them whose key does not end in [-beta].  On the
    record [{downloads: 10, updated: "x", "1.0.0": 5, "1.1.0-beta": 2}]
    the strict map is [{"1.0.0": 5}] and the inclusive map is
    [{"1.0.0": 5, "1.1.0-beta": 2}]. *)
Theorem version_map_exact (pluginData : PluginRecord) :
  (∀ key v,
     versions_inclusive pluginData !! key = Some v
     ↔ pluginData !! key = Some v ∧ key ≠ "downloads" ∧ key ≠ "updated"
       ∧ key ≠ "__proto__")
  ∧ (∀ key v,
       versions_strict pluginData !! key = Some v
       ↔ pluginData !! key = Some v ∧ key ≠ "downloads" ∧ key ≠ "updated"
         ∧ key ≠ "__proto__"
         ∧ ¬ ∃ pre, key = pre +:+ "-beta")
  ∧ versions_strict example_record = {[ "1.0.0" := JNum 5 ]}
  ∧ versions_inclusive example_record
    = {[ "1.0.0" := JNum 5; "1.1.0-beta" := JNum 2 ]}.
Proof.
  split; [|split; [|split; by vm_compute]].
  - intros key v. rewrite versions_inclusive_lookup.
    destruct (reserved key) eqn:Hr; simpl.
    + apply reserved_spec in Hr. split; [done | intros (_ & ? & ? & _); tauto].
    + assert (¬ (key = "downloads" ∨ key = "updated")) as Hn
        by (rewrite <- reserved_spec; congruence).
      destruct (String.eqb key "__proto__") eqn:Hp.
      * apply String.eqb_eq in Hp. split; [done | intros (_ & _ & _ & ?); done].
      * apply String.eqb_neq in Hp. tauto.
  - intros key v. rewrite versions_strict_lookup.
    destruct (reserved key) eqn:Hr; simpl.
    + apply reserved_spec in Hr.
      split; [done | intros (_ & ? & ? & _); tauto].
    + assert (¬ (key = "downloads" ∨ key = "updated")) as Hn
        by (rewrite <- reserved_spec; congruence).
      destruct (String.eqb key "__proto__") eqn:Hp; simpl.
      * apply String.eqb_eq in Hp.
        split; [done | intros (_ & _ & _ & ? & _); done].
      * apply String.eqb_neq in Hp.
        destruct (endsWith key "-beta") eqn:Hb.
        -- apply endsWith_spec in Hb.
           split; [done | intros (_ & _ & _ & _ & ?); tauto].
        -- assert (¬ ∃ pre, key = pre +:+ "-beta") as Hnb
             by (rewrite <- endsWith_spec; congruence).
           tauto.
Qed.

(** ** The commit loops *)

Lemma for_of_older_irrelevant {S : Type} (body : S → CommitRecord → Flow S)
    (commit : CommitRecord) :
  (∀ s, ∃ s', body s commit = Break s') →
  ∀ newer older older' s,
    for_of body s (newer ++ commit :: older)
    = for_of body s (newer ++ commit :: older').
Proof.
  intros Hbreak newer older older'.
  induction newer as [|c newer IH]; intros s; simpl.
  - by destruct (Hbreak s) as [s' ->].
  - destruct (body s c); [done | apply IH].
Qed.

Lemma plugin_of_own (statsData : Snapshot) (pluginName : string)
    (pluginData : PluginRecord) :
  statsData !! pluginName = Some pluginData →
  plugin_of statsData pluginName = Some pluginData.
Proof. unfold plugin_of. by intros ->. Qed.

Lemma plugin_of_not_inherited (statsData : Snapshot) (pluginName : string)
    (pluginData : PluginRecord) :
  plugin_of statsData pluginName = Some pluginData →
  inherited pluginName = false →
  statsData !! pluginName = Some pluginData.
Proof.
  unfold plugin_of. intros Hread Hname.
  destruct (statsData !! pluginName); [done|]. by rewrite Hname in Hread.
Qed.

Lemma plugin_of_undefined (statsData : Snapshot) (pluginName : string) :
  plugin_of statsData pluginName = None
  ↔ statsData !! pluginName = None ∧ inherited pluginName = false.
Proof.
  unfold plugin_of.
  destruct (statsData !! pluginName), (inherited pluginName);
    split; try done; by intros [? ?].
Qed.

(** X20.  When the snapshot of a commit parses and the read
    [statsData[pluginName]] is undefined (the name is neither a key of the
    snapshot nor a property name of [Object.prototype]), the commit loop
    of either script ends there: the state is the one before the commit
    plus the [git show] of that commit and the "not found" message (no
    data point, no error message, no [git show] of an older commit), and
    the result of the whole loop does not depend on the commits that
    follow. *)
Theorem absent_plugin_stops (show : string → option Snapshot)
    (pluginName : string) (commit : CommitRecord) (statsData : Snapshot) :
  show (c_hash commit) = Some statsData →
  statsData !! pluginName = None →
  inherited pluginName = false →
  (∀ s older,
     for_of (Simple.body show pluginName) s (commit :: older)
     = Simple.mkState (Simple.history s) (Simple.lastValidDownloads s)
         (Simple.foundFirstEntry s)
         (Simple.log s ++ [GitShow (c_hash commit); LogNotFound (c_hash commit)]))
  ∧ (∀ s older,
       for_of (Strict.body show pluginName) s (commit :: older)
       = Strict.mkCollected (Strict.rawData s)
           (Strict.log s ++ [GitShow (c_hash commit); LogNotFound (c_hash commit)]))
  ∧ (∀ newer older older',
       Simple.loop show pluginName (newer ++ commit :: older)
       = Simple.loop show pluginName (newer ++ commit :: older')
       ∧ Strict.collect show pluginName (newer ++ commit :: older)
         = Strict.collect show pluginName (newer ++ commit :: older')).
Proof.
  intros Hshow Hown Hinherited.
  assert (plugin_of statsData pluginName = None) as Habsent
    by by apply plugin_of_undefined.
  assert (∀ s, Simple.body show pluginName s commit
               = Break (Simple.mkState (Simple.history s)
                          (Simple.lastValidDownloads s) (Simple.foundFirstEntry s)
                          (Simple.log s ++ [GitShow (c_hash commit);
                                            LogNotFound (c_hash commit)])))
    as Hsimple.
  { intros s. unfold Simple.body. rewrite Hshow, Habsent.
    unfold Simple.say; simpl. by rewrite <- app_assoc. }
  assert (∀ s, Strict.body show pluginName s commit
               = Break (Strict.mkCollected (Strict.rawData s)
                          (Strict.log s ++ [GitShow (c_hash commit);
                                            LogNotFound (c_hash commit)])))
    as Hstrict.
  { intros s. unfold Strict.body. rewrite Hshow, Habsent.
    unfold Strict.say; simpl. by rewrite <- app_assoc. }
  split; [|split].
  - intros s older. simpl. by rewrite Hsimple.
  - intros s older. simpl. by rewrite Hstrict.
  - intros newer older older'. split; apply for_of_older_irrelevant; eauto.
Qed.

Lemma absent_plugin_stops_witness :
  gap_repo "m" = Some (stats "q" 20)
  ∧ stats "q" 20 !! "p" = None
  ∧ inherited "p" = false
  ∧ Simple.history (Simple.loop gap_repo "p" gap_commits)
    = Simple.history (Simple.loop gap_repo "p" [mkCommit "n" (day 3)])
  ∧ Strict.rawData (Strict.collect gap_repo "p" gap_commits)
    = Strict.rawData (Strict.collect gap_repo "p" [mkCommit "n" (day 3)]).
Proof.
  split; [reflexivity|]. split; [reflexivity|]. split; [reflexivity|].
  destruct (absent_plugin_stops gap_repo "p" (mkCommit "m" (day 2))
              (stats "q" 20) eq_refl eq_refl eq_refl) as (_ & _ & Hany).
  destruct (Hany [mkCommit "n" (day 3)] [mkCommit "o" (day 1)] []) as [H1 H2].
  change gap_commits
    with ([mkCommit "n" (day 3)] ++ mkCommit "m" (day 2) :: [mkCommit "o" (day 1)]).
  rewrite H1, H2. split; reflexivity.
Defined.

(** C7.  The absence of the plugin goes unnoticed when its name is a
    property name of [Object.prototype]: for the plugin name
    [constructor], which none of the three snapshots holds, the commit
    loop of the strict script does not stop at the first commit; it
    collects a data point with 0 downloads and no versions from every
    commit and never logs "not found". *)
Theorem absent_plugin_not_detected :
  let final := Strict.collect gap_repo "constructor" gap_commits in
  Forall (λ c, ∃ statsData, gap_repo (c_hash c) = Some statsData
                            ∧ statsData !! "constructor" = None)
         gap_commits
  ∧ Strict.rawData final
    = [Strict.mkPoint "n" (day 3) 3 0 ∅; Strict.mkPoint "m" (day 2) 2 0 ∅;
       Strict.mkPoint "o" (day 1) 1 0 ∅]
  ∧ Forall (λ ev, ∀ hash, ev ≠ LogNotFound hash) (Strict.log final).
Proof.
  split_and!.
  - repeat constructor; eexists; split; reflexivity.
  - by vm_compute.
  - vm_compute. repeat constructor; by intros hash.
Qed.

(** ** The simple pipeline refines the sequential policy *)

Lemma has_date_app (h1 h2 : list Simple.Entry) (d : Z) :
  Simple.has_date (h1 ++ h2) d = Simple.has_date h1 d || Simple.has_date h2 d.
Proof. apply existsb_app. Qed.

Lemma last_cons_from {A B} (f : A → B) (x : A) (l : list A) (b : B) :
  from_option f b (last (x :: l)) = from_option f (f x) (last l).
Proof.
  destruct l as [|y l]; [done|]. rewrite last_cons_cons.
  destruct (last (y :: l)) eqn:Hlast; [done | by apply last_None in Hlast].
Qed.

(** One iteration of the simple loop, case by case. *)
Lemma simple_body_cases (show : string → option Snapshot)
    (pluginName : string) (s : Simple.State) (c : CommitRecord) :
  match show (c_hash c) with
  | None => ∃ s', Simple.body show pluginName s c = Next s' ∧ unchanged s s'
  | Some statsData =>
      match plugin_of statsData pluginName with
      | None => ∃ s', Simple.body show pluginName s c = Break s' ∧ unchanged s s'
      | Some pluginData =>
          let e := Simple.entry_of c pluginData in
          if Simple.has_date (Simple.history s) (Simple.date e) then
            ∃ s', Simple.body show pluginName s c = Next s' ∧ unchanged s s'
          else if Simple.foundFirstEntry s then
            if Simple.downloads e <=? Simple.lastValidDownloads s then
              ∃ s', Simple.body show pluginName s c = Next s' ∧ pushed e s s'
            else
              ∃ s', Simple.body show pluginName s c = Next s' ∧ unchanged s s'
          else
            ∃ s', Simple.body show pluginName s c = Next s' ∧ pushed e s s'
      end
  end.
Proof.
  unfold Simple.body, unchanged, pushed.
  destruct (show (c_hash c)) as [statsData|]; [|by eexists].
  destruct (plugin_of statsData pluginName) as [pluginData|]; [|by eexists].
  simpl. destruct (Simple.has_date _ _); [by eexists|].
  destruct (Simple.foundFirstEntry s) eqn:Hfound; simpl; [|by eexists].
  unfold Z.gtb, Z.leb. destruct (_ ?= _); by eexists.
Qed.

Lemma simple_loop_refines (show : string → option Snapshot)
    (pluginName : string) (commits : list CommitRecord) (s : Simple.State) :
  let final := for_of (Simple.body show pluginName) s commits in
  ∃ candidates,
    candidates `sublist_of` extracted show pluginName commits
    ∧ (Simple.history s = [] →
       head candidates = head (extracted show pluginName commits))
    ∧ (∀ e, e ∈ extracted show pluginName commits →
            e ∈ candidates
            ∨ Simple.has_date (Simple.history final) (Simple.date e) = true)
    ∧ Simple.history final
      = Simple.history s
          ++ resume (Simple.foundFirstEntry s) (Simple.lastValidDownloads s)
                    candidates
    ∧ Simple.lastValidDownloads final
      = from_option Simple.downloads (Simple.lastValidDownloads s)
          (last (resume (Simple.foundFirstEntry s)
                        (Simple.lastValidDownloads s) candidates)).
Proof.
  revert s. induction commits as [|c cs IH]; intros s; simpl.
  { exists []. split_and!; [constructor | done | by intros e ?%elem_of_nil | |].
    - destruct (Simple.foundFirstEntry s); simpl; by rewrite app_nil_r.
    - by destruct (Simple.foundFirstEntry s). }
  pose proof (simple_body_cases show pluginName s c) as Hcase.
  destruct (show (c_hash c)) as [statsData|] eqn:Hshow; cycle 1.
  { destruct Hcase as (s' & -> & Hh & Hl & Hf).
    destruct (IH s') as (cands & ?). exists cands.
    by rewrite <- Hh, <- Hl, <- Hf. }
  destruct (plugin_of statsData pluginName) as [pluginData|] eqn:Hplugin; cycle 1.
  { destruct Hcase as (s' & -> & Hh & Hl & Hf). rewrite Hh, Hl.
    exists []. split_and!; [constructor | done | by intros e ?%elem_of_nil | |];
      destruct (Simple.foundFirstEntry s); simpl; by rewrite ?app_nil_r. }
  simpl in Hcase. set (e := Simple.entry_of c pluginData) in *.
  destruct (Simple.has_date _ _) eqn:Hdup.
  { (* the day is already in the history *)
    destruct Hcase as (s' & -> & Hh & Hl & Hf).
    destruct (IH s') as (cands & Hsub & _ & Hcov & Hhist & Hlast).
    rewrite Hh, Hl, Hf in *.
    exists cands. split_and!; [by apply sublist_cons_r; left | | | done | done].
    - intros Hnil. by rewrite Hnil in Hdup.
    - intros e' [->|He']%elem_of_cons; [|by apply Hcov].
      right. rewrite Hhist, has_date_app. apply orb_true_iff. left. exact Hdup. }
  assert (∀ s' cands,
            pushed e s s' →
            resume true (Simple.downloads e) cands
            = resume (Simple.foundFirstEntry s') (Simple.lastValidDownloads s') cands)
    as Hpushed.
  { by intros s' cands (_ & -> & ->). }
  destruct (Simple.foundFirstEntry s) eqn:Hfound.
  - destruct (_ <=? _) eqn:Hle.
    + (* accepted; becomes the new floor *)
      destruct Hcase as (s' & -> & Hpush).
      destruct (IH s') as (cands & Hsub & _ & Hcov & Hhist & Hlast).
      rewrite <- (Hpushed _ _ Hpush) in *. destruct Hpush as (Hh & Hl & Hf).
      rewrite Hh, ?Hl in *.
      exists (e :: cands).
      split_and!; [by apply sublist_skip | done | | |]; simpl; rewrite ?Hle.
      * intros e' [->|He']%elem_of_cons; [left; left | ].
        destruct (Hcov e' He'); [left; by right | by right].
      * by rewrite Hhist, <- app_assoc.
      * by rewrite Hlast, last_cons_from.
    + (* an anomaly: dropped *)
      destruct Hcase as (s' & -> & Hh & Hl & Hf).
      destruct (IH s') as (cands & Hsub & _ & Hcov & Hhist & Hlast).
      rewrite Hh, Hl, Hf, ?Hfound in *.
      exists (e :: cands).
      split_and!; [by apply sublist_skip | done | | |]; simpl; rewrite ?Hle; try done.
      intros e' [->|He']%elem_of_cons; [left; left | ].
      destruct (Hcov e' He'); [left; by right | by right].
  - (* the first entry *)
    destruct Hcase as (s' & -> & Hpush).
    destruct (IH s') as (cands & Hsub & _ & Hcov & Hhist & Hlast).
    rewrite <- (Hpushed _ _ Hpush) in *. destruct Hpush as (Hh & Hl & Hf).
    rewrite Hh, ?Hl in *.
    exists (e :: cands).
    split_and!; [by apply sublist_skip | done | | |]; simpl.
    * intros e' [->|He']%elem_of_cons; [left; left | ].
      destruct (Hcov e' He'); [left; by right | by right].
    * by rewrite Hhist, <- app_assoc.
    * by rewrite Hlast, last_cons_from.
Qed.

Lemma sequential_from_sublist (lastValid : Z) (l : list Simple.Entry) :
  sequential_from lastValid l `sublist_of` l.
Proof.
  revert lastValid. induction l as [|p l IH]; intros lastValid; simpl.
  - constructor.
  - destruct (_ <=? _); [by apply sublist_skip | by apply sublist_cons].
Qed.

Lemma sequential_policy_sublist (l : list Simple.Entry) :
  sequential_policy l `sublist_of` l.
Proof.
  destruct l as [|p l]; simpl; [constructor|].
  apply sublist_skip, sequential_from_sublist.
Qed.

(** What the running floor accepts never exceeds the floor, and each
    accepted count is at most the one accepted before it. *)
Lemma sequential_from_descending (lastValid : Z) (l : list Simple.Entry) :
  Forall (λ e, Simple.downloads e ≤ lastValid) (sequential_from lastValid l)
  ∧ StronglySorted (λ a b, Simple.downloads b ≤ Simple.downloads a)
                   (sequential_from lastValid l).
Proof.
  revert lastValid. induction l as [|p l IH]; intros lastValid; simpl.
  - split; constructor.
  - destruct (_ <=? _) eqn:Hle; [|apply IH].
    destruct (IH (Simple.downloads p)) as [Hall Hsorted]. split.
    + constructor; [lia|]. eapply Forall_impl; [exact Hall|]. simpl. lia.
    + by constructor.
Qed.

Lemma sequential_policy_descending (l : list Simple.Entry) :
  StronglySorted (λ a b, Simple.downloads b ≤ Simple.downloads a)
                 (sequential_policy l).
Proof.
  destruct l as [|p l]; simpl; [constructor|].
  destruct (sequential_from_descending (Simple.downloads p) l). by constructor.
Qed.


(** ** [Array.prototype.sort] *)

Section SortFacts.
Context {A : Type} (cmp : A → A → Z).

Lemma insert_sorted_perm (x : A) (l : list A) :
  Js.insert_sorted cmp x l ≡ₚ x :: l.
Proof.
  induction l as [|y l IH]; simpl; [done|].
  destruct (0 <? cmp x y); [|done].
  rewrite IH. apply Permutation_swap.
Qed.

Lemma sort_perm (l : list A) : Js.sort cmp l ≡ₚ l.
Proof.
  induction l as [|x l IH]; simpl; [done|].
  by rewrite insert_sorted_perm, IH.
Qed.

(** The comparator orders by a total preorder [R]. *)
Context (R : relation A) `{!Transitive R}.
Hypothesis cmp_le : ∀ x y, cmp x y ≤ 0 → R x y.
Hypothesis cmp_gt : ∀ x y, 0 < cmp x y → R y x.

Lemma insert_sorted_HdRel (x y : A) (l : list A) :
  R y x → HdRel R y l → HdRel R y (Js.insert_sorted cmp x l).
Proof.
  intros Hyx Hhd. destruct l as [|z l]; simpl; [by constructor|].
  destruct (0 <? cmp x z); constructor; [by inv Hhd | done].
Qed.

Lemma insert_sorted_Sorted (x : A) (l : list A) :
  Sorted R l → Sorted R (Js.insert_sorted cmp x l).
Proof.
  induction 1 as [|y l Hsorted IH Hhd]; simpl.
  - repeat constructor.
  - destruct (0 <? cmp x y) eqn:Hcmp.
    + constructor; [done|]. apply insert_sorted_HdRel; [|done].
      apply cmp_gt. lia.
    + constructor; [by constructor|]. constructor. apply cmp_le. lia.
Qed.

Lemma sort_Sorted (l : list A) : Sorted R (Js.sort cmp l).
Proof.
  induction l as [|x l IH]; simpl; [constructor|].
  by apply insert_sorted_Sorted.
Qed.
End SortFacts.

Lemma simple_run_sorted (show : string → option Snapshot)
    (pluginName : string) (commits : list CommitRecord) :
  Sorted (λ a b, Simple.date a ≤ Simple.date b)
         (Simple.run show pluginName commits).
Proof.
  unfold Simple.run.
  apply sort_Sorted; unfold Simple.by_date, ms_per_day;
    first [intros x y z ? ?; lia | intros x y; lia].
Qed.

Lemma strict_sorted_raw_sorted (show : string → option Snapshot)
    (pluginName : string) (commits : list CommitRecord) :
  Sorted (λ a b, Strict.timestamp b ≤ Strict.timestamp a)
         (Strict.sorted_raw show pluginName commits).
Proof.
  unfold Strict.sorted_raw.
  apply sort_Sorted; unfold Strict.newest_first;
    first [intros x y z ? ?; lia | intros x y; lia].
Qed.

(** ** One entry per calendar day *)

Lemma for_of_invariant {S : Type} (body : S → CommitRecord → Flow S)
    (P : S → Prop) :
  (∀ s c s', P s → body s c = Next s' ∨ body s c = Break s' → P s') →
  ∀ commits s, P s → P (for_of body s commits).
Proof.
  intros Hstep commits. induction commits as [|c cs IH]; intros s Hs; simpl.
  - done.
  - destruct (body s c) as [s'|s'] eqn:Hbody.
    + apply (Hstep s c s'); auto.
    + apply IH, (Hstep s c s'); auto.
Qed.

Lemma has_date_false (h : list Simple.Entry) (d : Z) :
  Simple.has_date h d = false → d ∉ Simple.date <$> h.
Proof.
  unfold Simple.has_date. intros Hnone (e & -> & He)%list_elem_of_fmap.
  assert (existsb (λ entry, Simple.date entry =? Simple.date e) h = true)
    as Hsome; [|congruence].
  apply existsb_exists. exists e. split; [by apply list_elem_of_In | lia].
Qed.

Lemma simple_body_dates (show : string → option Snapshot)
    (pluginName : string) (s s' : Simple.State) (c : CommitRecord) :
  NoDup (Simple.date <$> Simple.history s) →
  Simple.body show pluginName s c = Next s'
  ∨ Simple.body show pluginName s c = Break s' →
  NoDup (Simple.date <$> Simple.history s').
Proof.
  intros Hnodup Hbody.
  pose proof (simple_body_cases show pluginName s c) as Hcase.
  assert (∀ t, unchanged s t →
               NoDup (Simple.date <$> Simple.history t)) as Hsame.
  { intros t (-> & _). done. }
  assert (∀ e t, Simple.has_date (Simple.history s) (Simple.date e) = false →
                 pushed e s t →
                 NoDup (Simple.date <$> Simple.history t)) as Hpush.
  { intros e t Hfresh (-> & _). rewrite fmap_app. simpl.
    apply NoDup_app. split_and!; [done | | apply NoDup_singleton].
    intros d Hd ->%list_elem_of_singleton. by apply has_date_false in Hfresh. }
  destruct (show (c_hash c)) as [statsData|];
    [destruct (plugin_of statsData pluginName) as [pluginData|]|];
    simpl in Hcase;
    [destruct (Simple.has_date _ _) eqn:Hfresh;
       [|destruct (Simple.foundFirstEntry s); [destruct (_ <=? _)|]] | |];
    destruct Hcase as (t & Ht & Hres);
    (assert (s' = t) as -> by (destruct Hbody; congruence));
    first [by apply Hsame | by apply (Hpush (Simple.entry_of c pluginData))].
Qed.

Lemma simple_loop_dates (show : string → option Snapshot)
    (pluginName : string) (commits : list CommitRecord) :
  NoDup (Simple.date <$> Simple.history (Simple.loop show pluginName commits)).
Proof.
  unfold Simple.loop.
  apply (for_of_invariant _ (λ s, NoDup (Simple.date <$> Simple.history s))).
  - intros s c s' Hs Hbody. by eapply simple_body_dates.
  - constructor.
Qed.




(** ** The neighbour policy *)

Lemma is_valid_false (rawData : list Strict.DataPoint) (i : nat)
    (current : Strict.DataPoint) :
  Strict.is_valid rawData i current = false
  ↔ (∃ newer, (0 < i)%nat ∧ rawData !! (i - 1)%nat = Some newer
              ∧ Strict.downloads newer < Strict.downloads current)
    ∨ (∃ older, rawData !! (i + 1)%nat = Some older
                ∧ Strict.downloads current < Strict.downloads older).
Proof.
  unfold Strict.is_valid. cbv zeta.
  destruct (0 <? i)%nat eqn:Hpos;
    [apply Nat.ltb_lt in Hpos | apply Nat.ltb_ge in Hpos];
    destruct (rawData !! (i - 1)%nat) as [prev|] eqn:Hprev;
    destruct (rawData !! (i + 1)%nat) as [next|] eqn:Hnext;
    try rewrite (proj2 (Nat.ltb_lt _ _) (lookup_lt_Some _ _ _ Hnext));
    try destruct (i + 1 <? length rawData)%nat;
    try destruct (Strict.downloads current >? Strict.downloads prev) eqn:Hgt;
    try destruct (Strict.downloads current <? Strict.downloads next) eqn:Hlt;
    (split;
     [ intros Hf; try discriminate Hf;
       first [ left; exists prev; split_and!; [done | done | lia]
             | right; exists next; split_and!; [done | lia] ]
     | intros [(x & ? & ? & ?)|(x & ? & ?)]; simplify_eq; try done; lia ]).
Qed.

Lemma filter_loop_spec (rawData : list Strict.DataPoint) (n i : nat)
    (acc : Strict.Filtered) :
  (i + n = length rawData)%nat →
  let rest := imap (λ j p, ((i + j)%nat, p)) (drop i rawData) in
  Strict.filter_loop rawData n i acc
  = Strict.mkFiltered
      (Strict.validData acc
         ++ (List.filter (λ ip, Strict.is_valid rawData ip.1 ip.2) rest).*2)
      (Strict.skippedCount acc
         + length (List.filter
                     (λ ip, negb (Strict.is_valid rawData ip.1 ip.2)) rest)).
Proof.
  revert i acc. induction n as [|n IH]; intros i acc Hlen; simpl.
  - rewrite drop_ge by lia. simpl. rewrite app_nil_r, Nat.add_0_r.
    by destruct acc.
  - destruct (lookup_lt_is_Some_2 rawData i) as [current Hcur]; [lia|].
    rewrite Hcur, (drop_S _ _ _ Hcur), imap_cons. simpl.
    rewrite Nat.add_0_r.
    rewrite (imap_ext _ (λ j p, ((S i + j)%nat, p))) by (intros; simpl; f_equal; lia).
    rewrite IH by lia.
    destruct (Strict.is_valid rawData i current); simpl.
    + by rewrite <- app_assoc.
    + f_equal. lia.
Qed.

(** C3.  In the second phase a point is marked invalid iff its count
    exceeds that of the point just before it in the raw series (its newer
    neighbour) or is below that of the point just after it (its older
    neighbour); the first point has no newer neighbour and the last no older
    one.  The neighbours are those of the raw series, whether or not they
    are themselves rejected: the validated series is the raw series
    filtered, in order, by this test on raw positions, and the
    skipped-count counts the points that fail it. *)
Theorem neighbor_policy_exact (rawData : list Strict.DataPoint) :
  (∀ i current,
     rawData !! i = Some current →
     Strict.is_valid rawData i current = false
     ↔ (∃ newer, (0 < i)%nat ∧ rawData !! (i - 1)%nat = Some newer
                 ∧ Strict.downloads newer < Strict.downloads current)
       ∨ (∃ older, rawData !! (i + 1)%nat = Some older
                   ∧ Strict.downloads current < Strict.downloads older))
  ∧ Strict.validData (Strict.anomaly_filter rawData)
    = (List.filter (λ ip, Strict.is_valid rawData ip.1 ip.2)
                   (imap pair rawData)).*2
  ∧ Strict.skippedCount (Strict.anomaly_filter rawData)
    = length (List.filter (λ ip, negb (Strict.is_valid rawData ip.1 ip.2))
                          (imap pair rawData)).
Proof.
  split; [intros i current _; apply is_valid_false|].
  unfold Strict.anomaly_filter.
  rewrite filter_loop_spec by done. simpl. by rewrite drop_0.
Qed.

Lemma neighbor_policy_exact_witness :
  let raw := Strict.sorted_raw zigzag_repo "p" zigzag_commits in
  Strict.downloads <$> raw = [5; 1; 10; 7]
  ∧ ∃ current,
      raw !! 1%nat = Some current
      ∧ Strict.is_valid raw 1 current = false.
Proof.
  intros raw. split; [by vm_compute|].
  destruct (lookup_lt_is_Some_2 raw 1) as [current Hcurrent];
    [vm_compute; lia|].
  exists current. split; [done|].
  destruct (neighbor_policy_exact raw) as (Hiff & _).
  apply Hiff; [done|]. right.
  vm_compute in Hcurrent. injection Hcurrent as <-.
  eexists. split; [by vm_compute | simpl; lia].
Defined.

(** The neighbour policy does not make the validated series monotone: on
    the raw counts 5, 1, 10, 7 (newest first) it keeps 5 and 7, which read
    from oldest to newest are 7 then 5. *)
Lemma neighbor_policy_not_monotone :
  let raw := Strict.sorted_raw zigzag_repo "p" zigzag_commits in
  let valid := Strict.validData (Strict.anomaly_filter raw) in
  Strict.downloads <$> raw = [5; 1; 10; 7]
  ∧ Strict.downloads <$> reverse valid = [7; 5]
  ∧ ¬ Sorted Z.le (Strict.downloads <$> reverse valid).
Proof.
  intros raw valid.
  assert (Strict.downloads <$> reverse valid = [7; 5]) as Hvalid
    by (vm_compute; reflexivity).
  split_and!; [by vm_compute | done |].
  rewrite Hvalid. intros Hsorted.
  inv Hsorted as [|? ? _ Hhd]. inv Hhd as [|? ? Hle]. lia.
Qed.

(** ** Daily growth *)

Section GrowthFacts.
Context `{JsArith}.

Lemma growth_loop_chain (validData : list Strict.DataPoint) (n : nat)
    (g : Strict.Growth) (q : Strict.DataPoint) :
  validData !! n = Some q →
  Strict.previousDownloads g = Strict.downloads q →
  Strict.previousTimestamp g = Strict.timestamp q →
  Strict.history (Strict.growth_loop validData n g)
  = store (Strict.history g) (growth_chain q (reverse (take n validData))).
Proof.
  revert g q. induction n as [|i IH]; intros g q Hq Hd Ht; simpl.
  - done.
  - assert (S i < length validData)%nat as Hlen by by eapply lookup_lt_Some.
    destruct (lookup_lt_is_Some_2 validData i) as [point Hpoint]; [lia|].
    rewrite Hpoint, (take_S_r _ _ _ Hpoint), reverse_snoc. simpl.
    rewrite (IH _ point) by done. simpl.
    unfold Strict.dailyGrowth_of, growth_between.
    assert ((i =? length validData - 1)%nat = false) as ->
      by (apply Nat.eqb_neq; lia).
    by rewrite Hd, Ht.
Qed.

Lemma build_history_writes (validData : list Strict.DataPoint) :
  Strict.build_history validData
  = store [] (growth_writes (reverse validData)).
Proof.
  unfold Strict.build_history.
  destruct (length validData) as [|i] eqn:Hlen.
  - by apply length_zero_iff_nil in Hlen as ->.
  - simpl.
    destruct (lookup_lt_is_Some_2 validData i) as [point Hpoint]; [lia|].
    rewrite Hpoint.
    rewrite <- (take_ge validData (S i)) at 3 by lia.
    rewrite (take_S_r _ _ _ Hpoint), reverse_snoc. simpl.
    rewrite (growth_loop_chain _ _ _ point) by done. simpl.
    unfold Strict.dailyGrowth_of.
    by assert ((i =? length validData - 1)%nat = true) as ->
      by (apply Nat.eqb_eq; lia).
Qed.

Lemma growth_chain_lookup (prev : Strict.DataPoint)
    (points : list Strict.DataPoint) (i : nat) (point : Strict.DataPoint) :
  points !! i = Some point →
  ∃ before,
    (prev :: points) !! i = Some before
    ∧ growth_chain prev points !! i
      = Some (written point (growth_between before point)).
Proof.
  revert prev i. induction points as [|p later IH]; intros prev i Hi; [done|].
  destruct i as [|i]; simpl in *.
  - simplify_eq. by exists prev.
  - by apply IH.
Qed.

Lemma length_growth_chain (prev : Strict.DataPoint)
    (points : list Strict.DataPoint) :
  length (growth_chain prev points) = length points.
Proof. revert prev. induction points; intros; simpl; auto. Qed.

(** C4.  The third phase of the strict pipeline performs one assignment
    [history[point.timestamp] = ...] per validated point, from the oldest
    to the newest.  The entry assigned for the oldest point has its
    download count as [dailyGrowth]; the entry assigned for a later point
    has [round((downloads_i - downloads_{i-1}) / daysDifference)] with
    [daysDifference = (timestamp_i - timestamp_{i-1}) / 86400000] when
    [daysDifference > 0], and 0 otherwise.  The loop is a total function:
    no elapsed time gives 0, not a failure. *)
Theorem daily_growth_exact (validData : list Strict.DataPoint) :
  let points := reverse validData in
  ∃ writes : list (Z * Strict.HistoryEntry),
    Strict.build_history validData = store [] writes
    ∧ length writes = length points
    ∧ ∀ i point,
        points !! i = Some point →
        ∃ dailyGrowth,
          writes !! i
          = Some (Strict.timestamp point,
                  Strict.mkHistoryEntry (Strict.date point)
                    (Strict.downloads point) dailyGrowth
                    (Strict.versions point))
          ∧ match i with
            | O => dailyGrowth = Strict.downloads point
            | S j =>
                ∃ prev,
                  points !! j = Some prev
                  ∧ let daysDifference :=
                      div (of_int (Strict.timestamp point
                                   - Strict.timestamp prev))
                          (of_int 86400000) in
                    dailyGrowth
                    = if positive daysDifference
                      then round (div (of_int (Strict.downloads point
                                               - Strict.downloads prev))
                                      daysDifference)
                      else 0
            end.
Proof.
  intros points. exists (growth_writes points).
  split; [apply build_history_writes|].
  destruct points as [|oldest later]; [by split|]. simpl.
  split; [by rewrite length_growth_chain|].
  intros [|j] point Hpoint; simpl in *.
  - simplify_eq. by eexists.
  - destruct (growth_chain_lookup oldest later j point Hpoint)
      as (before & Hbefore & Hwrite).
    eexists. split; [exact Hwrite|]. by exists before.
Qed.
End GrowthFacts.

Lemma daily_growth_exact_witness :
  ∃ writes,
    @Strict.build_history exact_arith ten_days = store [] writes
    ∧ ∃ dailyGrowth,
        Strict.h_dailyGrowth ∘ snd <$> writes !! 1%nat = Some dailyGrowth
        ∧ dailyGrowth = 5.
Proof.
  destruct (@daily_growth_exact exact_arith ten_days)
    as (writes & Hbuilt & _ & Hall).
  exists writes. split; [exact Hbuilt|].
  destruct (Hall 1%nat (Strict.mkPoint "b" (day 10) 10 150 ∅) eq_refl)
    as (dailyGrowth & Hwrite & prev & Hprev & Hgrowth).
  exists dailyGrowth. split; [by rewrite Hwrite|].
  vm_compute in Hprev. injection Hprev as <-.
  rewrite Hgrowth. reflexivity.
Defined.

(** ** Order of the emitted history *)

Lemma StronglySorted_sublist {A} (R : relation A) (l1 l2 : list A) :
  l1 `sublist_of` l2 → StronglySorted R l2 → StronglySorted R l1.
Proof.
  induction 1 as [|x l1 l2 Hsub IH|x l1 l2 Hsub IH]; intros Hsorted.
  - constructor.
  - apply StronglySorted_inv in Hsorted as [Hrest Hall]. constructor; [auto|].
    apply Forall_forall. intros y Hy. rewrite Forall_forall in Hall.
    apply Hall. by eapply elem_of_sublist.
  - apply StronglySorted_inv in Hsorted as [Hrest _]. auto.
Qed.

Lemma filter_sublist {A} (f : A → bool) (l : list A) :
  List.filter f l `sublist_of` l.
Proof.
  induction l as [|x l IH]; simpl; [constructor|].
  destruct (f x); [by apply sublist_skip | by apply sublist_cons].
Qed.

Lemma snd_imap_pair {A B} (g : nat → B) (l : list A) :
  (imap (λ j p, (g j, p)) l).*2 = l.
Proof.
  revert g. induction l as [|x l IH]; intros g; [done|].
  rewrite imap_cons. csimpl. f_equal. apply (IH (g ∘ S)).
Qed.

Lemma validData_sublist (rawData : list Strict.DataPoint) :
  Strict.validData (Strict.anomaly_filter rawData) `sublist_of` rawData.
Proof.
  unfold Strict.anomaly_filter. rewrite filter_loop_spec by done.
  cbv zeta. rewrite drop_0. cbn [Strict.validData app].
  pose proof (fmap_sublist snd _ _
                (filter_sublist
                   (λ ip, Strict.is_valid rawData ip.1 ip.2)
                   (imap (λ j p, ((0 + j)%nat, p)) rawData))) as Hsub.
  by rewrite snd_imap_pair in Hsub.
Qed.

Section StoreFacts.
Context {V : Type}.
Implicit Types (obj : list (Z * V)).

Lemma set_keys_elem (k : Z) (v : V) obj (x : Z) :
  x ∈ (Js.set k v obj).*1 → x ∈ obj.*1 ∨ x = k.
Proof.
  induction obj as [|[k' v'] obj IH]; simpl.
  - intros ->%list_elem_of_singleton. by right.
  - destruct (k' =? k) eqn:Hk; csimpl.
    + apply Z.eqb_eq in Hk as ->. intros Hx. by left.
    + intros [->|Hx]%elem_of_cons; [left; left|].
      destruct (IH Hx); [left; by right | by right].
Qed.

(** Assigning a key that is not below any present key keeps the keys in
    strictly ascending order. *)
Lemma set_keys_ascending (k : Z) (v : V) obj :
  StronglySorted Z.lt obj.*1 →
  Forall (λ k', k' ≤ k) obj.*1 →
  StronglySorted Z.lt (Js.set k v obj).*1
  ∧ Forall (λ k', k' ≤ k) (Js.set k v obj).*1.
Proof.
  induction obj as [|[k' v'] obj IH]; simpl; intros Hsorted Hall.
  - split; repeat constructor. lia.
  - apply StronglySorted_inv in Hsorted as [Hrest Hlt].
    apply Forall_cons in Hall as [Hk' Hall].
    destruct (k' =? k) eqn:Hk; csimpl.
    + apply Z.eqb_eq in Hk as ->. split; by constructor.
    + apply Z.eqb_neq in Hk. destruct (IH Hrest Hall) as [IH1 IH2].
      split; [|by constructor]. constructor; [done|].
      apply Forall_forall. intros x [Hx| ->]%set_keys_elem; [|lia].
      rewrite Forall_forall in Hlt. by apply Hlt.
Qed.

Lemma store_keys_ascending (writes : list (Z * V)) obj :
  StronglySorted Z.le writes.*1 →
  StronglySorted Z.lt obj.*1 →
  Forall (λ k, Forall (λ k', k ≤ k') writes.*1) obj.*1 →
  StronglySorted Z.lt (store obj writes).*1.
Proof.
  revert obj. induction writes as [|[k v] writes IH]; intros obj; [done|].
  csimpl. intros [Hrest Hle]%StronglySorted_inv Hsorted Hbelow.
  destruct (set_keys_ascending k v obj Hsorted) as [Hsorted' Hall'].
  { eapply Forall_impl; [exact Hbelow|]. simpl. by intros x [? _]%Forall_cons. }
  apply IH; [done | done |].
  eapply Forall_impl; [exact Hall'|]. simpl. intros x Hx.
  eapply Forall_impl; [exact Hle|]. simpl. lia.
Qed.
End StoreFacts.

Section OrderFacts.
Context `{JsArith}.

Lemma growth_chain_keys (prev : Strict.DataPoint)
    (points : list Strict.DataPoint) :
  (growth_chain prev points).*1 = Strict.timestamp <$> points.
Proof.
  revert prev. induction points as [|p later IH]; intros prev; [done|].
  csimpl. by rewrite IH.
Qed.

Lemma growth_writes_keys (points : list Strict.DataPoint) :
  (growth_writes points).*1 = Strict.timestamp <$> points.
Proof. destruct points; [done|]. csimpl. by rewrite growth_chain_keys. Qed.

Lemma strict_run_keys_ascending (show : string → option Snapshot)
    (pluginName : string) (commits : list CommitRecord) :
  StronglySorted Z.lt (Strict.run show pluginName commits).*1.
Proof.
  unfold Strict.run. rewrite build_history_writes.
  apply store_keys_ascending; [|constructor|constructor].
  rewrite growth_writes_keys, fmap_reverse.
  apply Sorted_StronglySorted; [intros x y z; lia|].
  apply (Sorted_reverse (flip Z.le)), StronglySorted_Sorted.
  eapply (StronglySorted_fmap
            _ (λ a b, Strict.timestamp b ≤ Strict.timestamp a)); [done|].
  eapply StronglySorted_sublist; [apply validData_sublist|].
  apply Sorted_StronglySorted; [intros x y z; lia|].
  apply strict_sorted_raw_sorted.
Qed.

End OrderFacts.

(** ** Rolling averages *)

Lemma foldl_add (a : Z) (l : list Z) :
  foldl (λ acc val, acc + val) a l = a + foldr Z.add 0 l.
Proof.
  revert a. induction l as [|x l IH]; intros a; simpl; [lia|].
  rewrite IH. lia.
Qed.

Section RollingFacts.
Context `{JsArith}.

Lemma rolling_loop_spec (w : Z) (ys : list Z) (n : nat) (i : Z)
    (acc : list Z) :
  Chart.rolling_loop w ys n i acc
  = acc ++ ((λ j, Chart.rolling_at w ys (i + Z.of_nat j)) <$> seq 0 n).
Proof.
  revert i acc. induction n as [|n IH]; intros i acc; simpl.
  - by rewrite app_nil_r.
  - rewrite IH, <- app_assoc. simpl. rewrite Z.add_0_r. do 2 f_equal.
    rewrite <- fmap_S_seq, <- list_fmap_compose.
    apply list_fmap_ext. intros _ j _. simpl. f_equal. lia.
Qed.

(** C5, as amended.  For a window size [w >= 1] (in particular 7 and 30)
    the rolling-average value at index [i] is [Math.round] of the
    arithmetic mean of the growth values at the indices
    [max(0, i - w + 1)] to [i] inclusive: a trailing window that shrinks
    near the start, without padding or look-ahead.  For a series of
    length 10 the 7-point value at index 9 is the rounded mean of the
    values at indices 3 to 9, and at index 2 that of the values at indices
    0 to 2. *)
Theorem rolling_average_rounded_mean (w : Z) (ys : list Z) (i : nat) :
  1 ≤ w →
  (i < length ys)%nat →
  let first := Z.to_nat (Z.max 0 (Z.of_nat i - w + 1)) in
  let window := take (S i - first) (drop first ys) in
  (first ≤ i)%nat
  ∧ length window = (S i - first)%nat
  ∧ (∀ j, (first + j ≤ i)%nat → window !! j = ys !! (first + j)%nat)
  ∧ Chart.rollingAverage w ys !! i
    = Some (round (div (of_int (foldr Z.add 0 window))
                       (of_int (Z.of_nat (length window)))))
  ∧ Chart.rollingAverageData7Day = Chart.rollingAverage 7
  ∧ Chart.rollingAverageData30Day = Chart.rollingAverage 30
  ∧ (∀ y0 y1 y2 y3 y4 y5 y6 y7 y8 y9,
       let series := [y0; y1; y2; y3; y4; y5; y6; y7; y8; y9] in
       Chart.rollingAverageData7Day series !! 9%nat
       = Some (round (div (of_int (0 + y3 + y4 + y5 + y6 + y7 + y8 + y9))
                          (of_int 7)))
       ∧ Chart.rollingAverageData7Day series !! 2%nat
         = Some (round (div (of_int (0 + y0 + y1 + y2)) (of_int 3)))).
Proof.
  intros Hw Hi first window.
  assert (first ≤ i)%nat as Hfirst by (subst first; lia).
  assert (length window = (S i - first)%nat) as Hlen.
  { subst window. rewrite length_take, length_drop. lia. }
  split_and!; try done.
  - intros j Hj. subst window.
    rewrite lookup_take_lt by lia. by rewrite lookup_drop.
  - unfold Chart.rollingAverage. rewrite rolling_loop_spec. simpl.
    rewrite list_lookup_fmap, lookup_seq_lt by done. simpl. f_equal.
    unfold Chart.rolling_at, Chart.slice. rewrite Z.add_0_l.
    replace (Z.to_nat (Z.of_nat i + 1)) with (S i) by lia.
    fold first. fold window. rewrite Hlen.
    assert ((0 <? S i - first)%nat = true) as -> by (apply Nat.ltb_lt; lia).
    by rewrite foldl_add, Z.add_0_l.
Qed.
End RollingFacts.

Lemma rolling_average_rounded_mean_witness :
  1 ≤ 7 ∧ (1 < length [1; 2])%nat
  ∧ @Chart.rollingAverage exact_arith 7 [1; 2] !! 1%nat = Some 2.
Proof.
  split; [lia|]. split; [simpl; lia|].
  destruct (@rolling_average_rounded_mean exact_arith 7 [1; 2] 1)
    as (_ & _ & _ & Hvalue & _); [lia | simpl; lia |].
  rewrite Hvalue. reflexivity.
Defined.

(** The rolling-average value is not the mean itself: for the growth
    values 1 and 2 the mean at index 1 is 3/2 and the value pushed is 2. *)
Lemma rolling_average_not_mean :
  @Chart.rollingAverageData7Day exact_arith [1; 2] !! 1%nat = Some 2
  ∧ (inject_Z (1 + 2) / inject_Z 2 == 3 # 2)%Q
  ∧ ¬ (inject_Z 2 == inject_Z (1 + 2) / inject_Z 2)%Q.
Proof. split_and!; [reflexivity | reflexivity | discriminate]. Qed.

(** ** Missing or falsy download counts *)





(** ** The emitted simple history for commits listed newest first *)

Lemma StronglySorted_weaken {A} (R1 R2 : relation A) (l : list A) :
  (∀ x y, R1 x y → R2 x y) → StronglySorted R1 l → StronglySorted R2 l.
Proof.
  intros Himpl. induction 1 as [|x l Hsorted IH Hall]; constructor; [done|].
  eapply Forall_impl; [exact Hall | auto].
Qed.

Lemma StronglySorted_fmap_inv {A B} (f : A → B) (R : relation B) (l : list A) :
  StronglySorted R (f <$> l) → StronglySorted (λ a b, R (f a) (f b)) l.
Proof.
  induction l as [|x l IH]; csimpl; [constructor|].
  intros [Hrest Hall]%StronglySorted_inv. constructor; [auto|].
  rewrite Forall_forall in Hall. apply Forall_forall. intros y Hy.
  by apply Hall, list_elem_of_fmap_2.
Qed.

(** A list sorted by a key without repeated keys is strictly sorted. *)
Lemma StronglySorted_strict {A} (f : A → Z) (R : relation Z) (l : list A) :
  StronglySorted (λ a b, R (f a) (f b)) l →
  NoDup (f <$> l) →
  StronglySorted (λ a b, R (f a) (f b) ∧ f a ≠ f b) l.
Proof.
  induction 1 as [|x l Hsorted IH Hall]; csimpl; [constructor|].
  intros [Hx Hnodup]%NoDup_cons. constructor; [auto|].
  rewrite Forall_forall in Hall. apply Forall_forall. intros y Hy.
  split; [by apply Hall|]. intros Heq. apply Hx. rewrite Heq.
  by apply list_elem_of_fmap_2.
Qed.

Lemma extracted_dates_sublist (show : string → option Snapshot)
    (pluginName : string) (commits : list CommitRecord) :
  Simple.date <$> extracted show pluginName commits
  `sublist_of` (λ c, date_of (c_timestamp c)) <$> commits.
Proof.
  induction commits as [|c cs IH]; csimpl; [constructor|].
  destruct (show (c_hash c)) as [statsData|]; [|by apply sublist_cons].
  destruct (plugin_of statsData pluginName) as [pluginData|];
    [by apply sublist_skip | apply sublist_nil_l].
Qed.

Lemma sort_descending_is_reverse (h : list Simple.Entry) :
  StronglySorted (λ a b, Simple.date b ≤ Simple.date a) h →
  NoDup (Simple.date <$> h) →
  Js.sort Simple.by_date h = reverse h.
Proof.
  intros Hdesc Hnodup.
  apply (StronglySorted_unique_strong (λ a b, Simple.date a < Simple.date b)).
  - intros x y _ _. lia.
  - eapply StronglySorted_weaken;
      [|apply (StronglySorted_strict Simple.date Z.le)].
    + simpl. lia.
    + apply Sorted_StronglySorted; [intros x y z; lia|].
      apply sort_Sorted; unfold Simple.by_date, ms_per_day;
        first [intros x y z ? ?; lia | intros x y; lia].
    + by rewrite sort_perm.
  - apply Sorted_StronglySorted; [intros x y z; lia|].
    apply (Sorted_reverse (λ a b, Simple.date b < Simple.date a)).
    apply StronglySorted_Sorted.
    eapply StronglySorted_weaken;
      [|apply (StronglySorted_strict Simple.date (flip Z.le)); done].
    unfold flip. simpl. lia.
  - by rewrite sort_perm, reverse_Permutation.
Qed.

(** When the commits are listed newest first, the emitted array is the
    accepted entries in reverse, and its download counts never decrease. *)
Lemma simple_run_monotone (show : string → option Snapshot)
    (pluginName : string) (commits : list CommitRecord) :
  StronglySorted (λ a b, c_timestamp b ≤ c_timestamp a) commits →
  Simple.run show pluginName commits
  = reverse (Simple.history (Simple.loop show pluginName commits))
  ∧ Sorted Z.le (Simple.downloads <$> Simple.run show pluginName commits).
Proof.
  intros Hnewest.
  assert (Simple.run show pluginName commits
          = reverse (Simple.history (Simple.loop show pluginName commits)))
    as Hrun.
  { apply sort_descending_is_reverse; [|apply simple_loop_dates].
    apply (StronglySorted_fmap_inv Simple.date (λ a b, b ≤ a)).
    eapply StronglySorted_sublist;
      [|apply (StronglySorted_fmap
                 (λ c, date_of (c_timestamp c))
                 (λ a b, c_timestamp b ≤ c_timestamp a)
                 (λ a b, b ≤ a) commits); [|exact Hnewest]].
    - etrans; [|apply extracted_dates_sublist].
      apply fmap_sublist.
      destruct (simple_loop_refines show pluginName commits Simple.init)
        as (cands & Hsub & _ & _ & Hhist & _).
      unfold Simple.loop. rewrite Hhist. simpl.
      etrans; [apply sequential_policy_sublist | done].
    - intros x y Hxy. simpl. unfold date_of, ms_per_day.
      by apply Z.div_le_mono. }
  split; [done|]. rewrite Hrun.
  destruct (simple_loop_refines show pluginName commits Simple.init)
    as (cands & _ & _ & _ & Hhist & _).
  unfold Simple.loop. rewrite Hhist. simpl. rewrite fmap_reverse.
  apply (Sorted_reverse (flip Z.le)), StronglySorted_Sorted.
  eapply StronglySorted_fmap, sequential_policy_descending.
  intros x y. unfold flip. lia.
Qed.

(** ** Enumeration order of the strict history object *)

Lemma filter_none (p : Z → bool) (l : list Z) :
  Forall (λ y, p y = false) l →
  List.filter p l = [] ∧ List.filter (λ k, negb (p k)) l = l.
Proof.
  induction 1 as [|x l Hx Hall [IH1 IH2]]; simpl; [done|].
  rewrite Hx. simpl. by rewrite IH1, IH2.
Qed.

Lemma own_keys_ascending {V : Type} (obj : list (Z * V)) :
  StronglySorted Z.lt obj.*1 →
  Forall (λ k, 0 ≤ k) obj.*1 →
  Js.own_keys obj = obj.*1.
Proof.
  unfold Js.own_keys. generalize (obj.*1). clear obj. intros l Hsorted Hpos.
  assert (merge_sort Z.le (List.filter Js.is_array_index l)
          = List.filter Js.is_array_index l) as ->.
  { apply (Sorted_unique Z.le).
    - apply Sorted_merge_sort; apply _.
    - apply StronglySorted_Sorted.
      eapply StronglySorted_sublist; [apply filter_sublist|].
      eapply StronglySorted_weaken; [|exact Hsorted]. simpl. lia.
    - apply merge_sort_Permutation. }
  induction Hsorted as [|x l Hsorted IH Hall]; [done|].
  apply Forall_cons in Hpos as [Hx Hpos]. simpl.
  destruct (Js.is_array_index x) eqn:Hindex; simpl.
  - by rewrite IH.
  - destruct (filter_none Js.is_array_index l) as [-> ->]; [|done].
    eapply Forall_impl; [exact Hall|]. simpl. intros y Hy.
    unfold Js.is_array_index in *. lia.
Qed.

Lemma store_keys_elem {V : Type} (writes obj : list (Z * V)) (x : Z) :
  x ∈ (store obj writes).*1 → x ∈ obj.*1 ∨ x ∈ writes.*1.
Proof.
  revert obj. induction writes as [|[k v] writes IH]; intros obj; csimpl.
  - by left.
  - intros [[Hx| ->]%set_keys_elem|Hx]%IH.
    + by left.
    + right. by left.
    + right. by right.
Qed.

Lemma collect_timestamps (show : string → option Snapshot)
    (pluginName : string) (commits : list CommitRecord) (s : Strict.Collected) :
  ∃ points,
    Strict.rawData (for_of (Strict.body show pluginName) s commits)
    = Strict.rawData s ++ points
    ∧ Strict.timestamp <$> points `sublist_of` c_timestamp <$> commits.
Proof.
  revert s. induction commits as [|c cs IH]; intros s; csimpl.
  { exists []. by rewrite app_nil_r. }
  unfold Strict.body.
  destruct (show (c_hash c)) as [statsData|].
  - destruct (plugin_of statsData pluginName) as [pluginData|].
    + match goal with
      | |- context [for_of _ ?s' cs] => destruct (IH s') as (points & Hraw & Hsub)
      end.
      exists (Strict.point_of c pluginData :: points).
      split; [|by apply sublist_skip].
      etrans; [exact Hraw|]. simpl. by rewrite <- app_assoc.
    + exists []. simpl. rewrite app_nil_r. split; [done | apply sublist_nil_l].
  - match goal with
    | |- context [for_of _ ?s' cs] => destruct (IH s') as (points & Hraw & Hsub)
    end.
    exists points. split; [exact Hraw | by apply sublist_cons].
Qed.

Section EmittedOrder.
Context `{JsArith}.

(** For commits with non-negative timestamps (git author times), the keys
    of the strict history object are also enumerated, hence serialised,
    in ascending order of timestamp. *)
Lemma strict_run_enumeration (show : string → option Snapshot)
    (pluginName : string) (commits : list CommitRecord) :
  Forall (λ c, 0 ≤ c_timestamp c) commits →
  Js.own_keys (Strict.run show pluginName commits)
  = (Strict.run show pluginName commits).*1
  ∧ StronglySorted Z.lt (Js.own_keys (Strict.run show pluginName commits)).
Proof.
  intros Hpos.
  assert (Js.own_keys (Strict.run show pluginName commits)
          = (Strict.run show pluginName commits).*1) as Hkeys.
  { apply own_keys_ascending; [apply strict_run_keys_ascending|].
    apply Forall_forall. intros k Hk.
    unfold Strict.run in Hk. rewrite build_history_writes in Hk.
    apply store_keys_elem in Hk as [Hk|Hk]; [by apply elem_of_nil in Hk|].
    rewrite growth_writes_keys, fmap_reverse, elem_of_reverse in Hk.
    apply list_elem_of_fmap in Hk as (p & -> & Hp).
    pose proof (elem_of_sublist _ _ _ Hp (validData_sublist _)) as Hraw.
    unfold Strict.sorted_raw in Hraw. rewrite sort_perm in Hraw.
    destruct (collect_timestamps show pluginName commits
                (Strict.mkCollected [] [])) as (points & Hpoints & Hsub).
    unfold Strict.collect in Hraw. rewrite Hpoints in Hraw. simpl in Hraw.
    assert (Strict.timestamp p ∈ c_timestamp <$> commits) as Hin.
    { eapply elem_of_sublist; [|exact Hsub]. by apply list_elem_of_fmap_2. }
    apply list_elem_of_fmap in Hin as (c & -> & Hc).
    rewrite Forall_forall in Hpos. by apply Hpos. }
  split; [done|]. rewrite Hkeys. apply strict_run_keys_ascending.
Qed.
End EmittedOrder.

(** ** Monotonicity of the validated series *)

(** C1, as amended.  Under the sequential policy the accepted entries, read
    from oldest to newest (the processing order reversed), have
    non-decreasing download counts; when the commits are listed newest
    first, this is the order of the emitted array.  Under the neighbour
    policy a point that is kept has a count at most that of its newer raw
    neighbour and at least that of its older raw neighbour, so that two
    kept points that are adjacent in the raw series are in order. *)
Theorem validated_series_monotone :
  (∀ (show : string → option Snapshot) (pluginName : string)
     (commits : list CommitRecord),
     Sorted Z.le
       (Simple.downloads
          <$> reverse (Simple.history (Simple.loop show pluginName commits)))
     ∧ (StronglySorted (λ a b, c_timestamp b ≤ c_timestamp a) commits →
        Simple.run show pluginName commits
        = reverse (Simple.history (Simple.loop show pluginName commits))
        ∧ Sorted Z.le (Simple.downloads <$> Simple.run show pluginName commits)))
  ∧ (∀ (rawData : list Strict.DataPoint) (i : nat) (newer older : Strict.DataPoint),
       rawData !! i = Some newer →
       rawData !! S i = Some older →
       Strict.is_valid rawData i newer = true
       ∨ Strict.is_valid rawData (S i) older = true →
       Strict.downloads older ≤ Strict.downloads newer).
Proof.
  split.
  - intros show pluginName commits. split; [|apply simple_run_monotone].
    destruct (simple_loop_refines show pluginName commits Simple.init)
      as (cands & _ & _ & _ & Hhist & _).
    unfold Simple.loop. rewrite Hhist. simpl.
    rewrite fmap_reverse.
    apply (Sorted_reverse (flip Z.le)).
    apply StronglySorted_Sorted.
    eapply StronglySorted_fmap, sequential_policy_descending.
    intros x y. unfold flip. lia.
  - intros rawData i newer older Hi HSi Hvalid.
    assert (i + 1 < length rawData)%nat as Hlen.
    { apply lookup_lt_Some in HSi. lia. }
    unfold Strict.is_valid in Hvalid. destruct Hvalid as [Hvalid|Hvalid].
    + replace (i + 1)%nat with (S i) in * by lia.
      rewrite HSi in Hvalid.
      destruct (i + 1 <? length rawData)%nat eqn:Hlt; [|apply Nat.ltb_ge in Hlt; lia].
      replace (i + 1)%nat with (S i) in * by lia.
      destruct (Strict.downloads newer <? Strict.downloads older) eqn:Hcmp; [|lia].
      by repeat case_match.
    + replace (S i - 1)%nat with i in * by lia. rewrite Hi in Hvalid.
      simpl in Hvalid.
      destruct (Strict.downloads older >? Strict.downloads newer) eqn:Hcmp; [|lia].
      by repeat case_match.
Qed.

Lemma validated_series_monotone_witness :
  StronglySorted (λ a b, c_timestamp b ≤ c_timestamp a) scenario_commits
  ∧ Simple.downloads <$> Simple.run scenario_repo "p" scenario_commits
    = [100; 300; 500]
  ∧ Sorted Z.le
      (Simple.downloads <$> Simple.run scenario_repo "p" scenario_commits).
Proof.
  assert (StronglySorted (λ a b, c_timestamp b ≤ c_timestamp a)
                         scenario_commits) as Hnewest
    by (repeat constructor; by vm_compute).
  split; [exact Hnewest|]. split; [reflexivity|].
  destruct validated_series_monotone as [Hsequential _].
  destruct (Hsequential scenario_repo "p" scenario_commits) as [_ Hrun].
  by destruct (Hrun Hnewest).
Defined.

(** ** Ascending order of the emitted histories *)

Section Ascending.
Context `{JsArith}.

(** C9.  The array emitted by the simple pipeline is in ascending order
    of calendar date, and the timestamp-keyed entries of the strict
    pipeline are created in strictly ascending order of timestamp,
    whatever the order of the commits; for git timestamps (which are not
    negative) that is also the order in which the keys of the history
    object are enumerated when it is serialised. *)
Theorem emitted_history_ascending (show : string → option Snapshot)
    (pluginName : string) (commits : list CommitRecord) :
  Sorted (λ a b, Simple.date a ≤ Simple.date b)
         (Simple.run show pluginName commits)
  ∧ StronglySorted Z.lt (Strict.run show pluginName commits).*1
  ∧ (Forall (λ c, 0 ≤ c_timestamp c) commits →
     Js.own_keys (Strict.run show pluginName commits)
     = (Strict.run show pluginName commits).*1).
Proof.
  split_and!; [apply simple_run_sorted | apply strict_run_keys_ascending |].
  intros Hpos. by apply strict_run_enumeration.
Qed.
End Ascending.

Lemma emitted_history_ascending_witness :
  Forall (λ c, 0 ≤ c_timestamp c) scenario_commits
  ∧ Js.own_keys (@Strict.run exact_arith scenario_repo "p" scenario_commits)
    = [day 0; day 20; day 30].
Proof.
  assert (Forall (λ c, 0 ≤ c_timestamp c) scenario_commits) as Hpos
    by (repeat constructor; by vm_compute).
  split; [exact Hpos|].
  destruct (@emitted_history_ascending exact_arith scenario_repo "p"
              scenario_commits) as (_ & _ & Hkeys).
  rewrite (Hkeys Hpos). reflexivity.
Defined.

(** ** The scenarios of the specification, evaluated *)

Example scenario_simple :
  (λ e, (Simple.date e, Simple.downloads e))
    <$> Simple.run scenario_repo "p" scenario_commits
  = [(0, 100); (20, 300); (30, 500)].
Proof. by vm_compute. Qed.

Example scenario_strict :
  (λ kv, (kv.1, Strict.h_downloads kv.2, Strict.h_dailyGrowth kv.2))
    <$> Strict.run scenario_repo "p" scenario_commits
  = [(day 0, 100, 100); (day 20, 300, 10); (day 30, 500, 20)].
Proof. by vm_compute. Qed.

Example growth_ten_days :
  (λ kv, Strict.h_dailyGrowth kv.2) <$> Strict.build_history ten_days
  = [100; 5].
Proof. by vm_compute. Qed.

Example growth_same_instant :
  (λ kv, Strict.h_dailyGrowth kv.2)
    <$> Strict.build_history
          [Strict.mkPoint "b" 5000 0 150 ∅; Strict.mkPoint "a" 5000 0 100 ∅]
  = [0].
Proof. by vm_compute. Qed.

Example rolling_ten :
  Chart.rollingAverageData7Day [10; 20; 30; 40; 50; 60; 70; 80; 90; 100]
  = [10; 15; 20; 25; 30; 35; 40; 50; 60; 70].
Proof. by vm_compute. Qed.

Example enumeration_small_keys :
  Js.own_keys [(5000000000000, 1%nat); (1000, 2%nat)] = [1000; 5000000000000].
Proof. by vm_compute. Qed.

(** * Further properties of the scripts *)

(** ** A commit that cannot be read *)

Lemma for_of_related {S : Type} (body : S → CommitRecord → Flow S)
    (R : relation S) :
  (∀ s t c, R s t →
     match body s c, body t c with
     | Break s', Break t' | Next s', Next t' => R s' t'
     | _, _ => False
     end) →
  ∀ commits s t, R s t → R (for_of body s commits) (for_of body t commits).
Proof.
  intros Hstep commits. induction commits as [|c cs IH]; intros s t Hst; simpl.
  - done.
  - specialize (Hstep s t c Hst).
    destruct (body s c), (body t c); try done. by apply IH.
Qed.

Lemma for_of_skipped {S : Type} (body : S → CommitRecord → Flow S)
    (R : relation S) `{!Transitive R} (c : CommitRecord) :
  (∀ s t c, R s t →
     match body s c, body t c with
     | Break s', Break t' | Next s', Next t' => R s' t'
     | _, _ => False
     end) →
  (∀ s, ∃ s', body s c = Next s' ∧ R s' s) →
  ∀ newer older s t,
    R s t →
    R (for_of body s (newer ++ c :: older)) (for_of body t (newer ++ older)).
Proof.
  intros Hstep Hskip newer older.
  induction newer as [|x newer IH]; intros s t Hst; simpl.
  - destruct (Hskip s) as (s' & -> & Hs').
    apply for_of_related; [done|]. by etrans.
  - specialize (Hstep s t x Hst).
    destruct (body s x), (body t x); try done. by apply IH.
Qed.

(** States of the simple loop that agree on everything but the log. *)
Lemma simple_body_related (show : string → option Snapshot)
    (pluginName : string) (s t : Simple.State) (c : CommitRecord) :
  unchanged s t →
  match Simple.body show pluginName s c, Simple.body show pluginName t c with
  | Break s', Break t' | Next s', Next t' => unchanged s' t'
  | _, _ => False
  end.
Proof.
  intros (Hh & Hl & Hf). unfold Simple.body, unchanged. simpl.
  rewrite Hh, Hl, Hf.
  destruct (show (c_hash c)) as [statsData|]; [|done].
  destruct (plugin_of statsData pluginName) as [pluginData|]; [|done].
  destruct (Simple.has_date _ _); [done|].
  destruct (Simple.foundFirstEntry s) eqn:Hfound; simpl; [|done].
  destruct (downloads_of pluginData >? Simple.lastValidDownloads s); simpl;
    split_and!; congruence.
Qed.

Lemma strict_body_related (show : string → option Snapshot)
    (pluginName : string) (s t : Strict.Collected) (c : CommitRecord) :
  Strict.rawData s = Strict.rawData t →
  match Strict.body show pluginName s c, Strict.body show pluginName t c with
  | Break s', Break t' | Next s', Next t' => Strict.rawData s' = Strict.rawData t'
  | _, _ => False
  end.
Proof.
  intros Hraw. unfold Strict.body. simpl. rewrite Hraw.
  destruct (show (c_hash c)) as [statsData|]; [|done].
  by destruct (plugin_of statsData pluginName).
Qed.

(** X1.  A commit whose [git show] or [JSON.parse] throws is skipped and
    nothing else: with or without it in the commit list, at any position,
    both extraction loops end with the same data (history and floor of the
    simple script, [rawData] of the strict one), so the emitted histories
    are the same. *)
Theorem unreadable_commit_skipped (show : string → option Snapshot)
    (pluginName : string) (newer older : list CommitRecord) (c : CommitRecord) :
  show (c_hash c) = None →
  Simple.history (Simple.loop show pluginName (newer ++ c :: older))
  = Simple.history (Simple.loop show pluginName (newer ++ older))
  ∧ Simple.lastValidDownloads (Simple.loop show pluginName (newer ++ c :: older))
    = Simple.lastValidDownloads (Simple.loop show pluginName (newer ++ older))
  ∧ Simple.run show pluginName (newer ++ c :: older)
    = Simple.run show pluginName (newer ++ older)
  ∧ Strict.rawData (Strict.collect show pluginName (newer ++ c :: older))
    = Strict.rawData (Strict.collect show pluginName (newer ++ older)).
Proof.
  intros Hshow.
  assert (unchanged (Simple.loop show pluginName (newer ++ older))
                    (Simple.loop show pluginName (newer ++ c :: older)))
    as (Hh & Hl & _).
  { unfold Simple.loop.
    assert (Transitive (λ s t : Simple.State, unchanged t s)) as Htrans.
    { intros x y z (? & ? & ?) (? & ? & ?). unfold unchanged.
      split_and!; congruence. }
    apply (for_of_skipped _ (λ s t, unchanged t s)).
    - intros s t x Hst.
      pose proof (simple_body_related show pluginName t s x Hst) as Hrel.
      by destruct (Simple.body show pluginName s x),
                  (Simple.body show pluginName t x).
    - intros s. unfold Simple.body. rewrite Hshow. by eexists.
    - done. }
  split_and!; [done | done | by unfold Simple.run; rewrite Hh |].
  unfold Strict.collect.
  assert (Transitive (λ s t : Strict.Collected,
                        Strict.rawData s = Strict.rawData t)) as Htrans
    by (intros x y z; congruence).
  apply (for_of_skipped _ (λ s t, Strict.rawData s = Strict.rawData t)).
  - apply strict_body_related.
  - intros s. unfold Strict.body. rewrite Hshow. by eexists.
  - done.
Qed.

Lemma unreadable_commit_skipped_witness :
  gap_repo "zz" = None
  ∧ Simple.run gap_repo "p" ([mkCommit "n" (day 3)] ++ mkCommit "zz" (day 2)
                               :: [mkCommit "o" (day 1)])
    = Simple.run gap_repo "p" [mkCommit "n" (day 3); mkCommit "o" (day 1)].
Proof.
  split; [reflexivity|].
  by destruct (unreadable_commit_skipped gap_repo "p"
                 [mkCommit "n" (day 3)] [mkCommit "o" (day 1)]
                 (mkCommit "zz" (day 2)) eq_refl) as (_ & _ & Hrun & _).
Defined.

(** ** The neighbour filter: what it counts and what it keeps *)

Lemma filter_lengths {A} (f : A → bool) (l : list A) :
  (length (List.filter f l) + length (List.filter (λ x, negb (f x)) l)
   = length l)%nat.
Proof.
  induction l as [|x l IH]; simpl; [done|].
  destruct (f x); simpl; lia.
Qed.

Lemma filter_all {A} (f : A → bool) (l : list A) :
  List.filter f l = l ↔ Forall (λ x, f x = true) l.
Proof.
  split.
  - induction l as [|x l IH]; simpl; [constructor|].
    destruct (f x) eqn:Hx.
    + intros [= Heq]. constructor; auto.
    + intros Heq. pose proof (sublist_length _ _ (filter_sublist f l)) as Hlen.
      rewrite Heq in Hlen. simpl in Hlen. lia.
  - induction 1 as [|x l Hx Hall IH]; simpl; [done|]. by rewrite Hx, IH.
Qed.

(** X2.  The number reported as "Filtered out N anomalous data points" and
    the number of validated points add up to the number of raw points, and
    the validated points are raw points in their original order. *)
Theorem skipped_count_exact (rawData : list Strict.DataPoint) :
  (length (Strict.validData (Strict.anomaly_filter rawData))
   + Strict.skippedCount (Strict.anomaly_filter rawData)
   = length rawData)%nat
  ∧ Strict.validData (Strict.anomaly_filter rawData) `sublist_of` rawData.
Proof.
  split; [|apply validData_sublist].
  unfold Strict.anomaly_filter. rewrite filter_loop_spec by done.
  cbv zeta. rewrite drop_0. cbn [Strict.validData Strict.skippedCount app].
  rewrite length_fmap, Nat.add_0_l.
  rewrite (filter_lengths (λ ip, Strict.is_valid rawData ip.1 ip.2)).
  by rewrite length_imap.
Qed.

Lemma Sorted_adjacent {A} (R : relation A) (l : list A) :
  Sorted R l ↔ ∀ i a b, l !! i = Some a → l !! S i = Some b → R a b.
Proof.
  split.
  - induction 1 as [|x l Hsorted IH Hhd]; intros i a b Ha Hb; [done|].
    destruct i as [|i]; simpl in *; [|by eapply IH].
    simplify_eq. destruct Hhd as [|y l' Hxy]; simpl in *; by simplify_eq.
  - induction l as [|x l IH]; intros Hadj; constructor.
    + apply IH. intros i a b Ha Hb. by apply (Hadj (S i)).
    + destruct l as [|y l]; constructor. by apply (Hadj 0%nat).
Qed.

Lemma filter_negb_nil {A} (f : A → bool) (l : list A) :
  List.filter (λ x, negb (f x)) l = [] ↔ Forall (λ x, f x = true) l.
Proof.
  induction l as [|x l IH]; simpl; [by split; [constructor|]|].
  destruct (f x) eqn:Hx; simpl.
  - rewrite IH. split; [by constructor | by intros [_ ?]%Forall_cons].
  - split; [done | intros [? _]%Forall_cons; congruence].
Qed.

(** Every point passes the neighbour test exactly when the raw counts never
    increase along the series. *)
Lemma all_valid_iff_descending (rawData : list Strict.DataPoint) :
  Forall (λ ip, Strict.is_valid rawData ip.1 ip.2 = true) (imap pair rawData)
  ↔ Sorted (λ a b, Strict.downloads b ≤ Strict.downloads a) rawData.
Proof.
  rewrite Forall_lookup, Sorted_adjacent. split.
  - intros Hvalid i a b Ha Hb.
    destruct (decide (Strict.downloads b ≤ Strict.downloads a)) as [|Hlt];
      [done|].
    assert (Strict.is_valid rawData i a = false) as Hfalse.
    { apply is_valid_false. right. exists b.
      replace (i + 1)%nat with (S i) by lia. split; [done | lia]. }
    specialize (Hvalid i (i, a)). rewrite list_lookup_imap, Ha in Hvalid.
    specialize (Hvalid eq_refl). simpl in Hvalid. congruence.
  - intros Hadj i [j cur]. rewrite list_lookup_imap.
    destruct (rawData !! i) as [cur'|] eqn:Hcur; [|done].
    intros [= <- <-]. simpl.
    destruct (Strict.is_valid rawData i cur') eqn:Hvalid; [done|].
    apply is_valid_false in Hvalid
      as [(newer & Hpos & Hnewer & Hlt)|(older & Holder & Hlt)].
    + specialize (Hadj (i - 1)%nat newer cur' Hnewer).
      replace (S (i - 1)) with i in Hadj by lia. specialize (Hadj Hcur). lia.
    + replace (i + 1)%nat with (S i) in Holder by lia.
      specialize (Hadj i cur' older Hcur Holder). lia.
Qed.

(** X3.  The neighbour filter keeps the whole raw series, and reports no
    anomaly, exactly when the download counts never increase from a raw
    point to the next older one; any increase costs at least one point. *)
Theorem neighbor_filter_keeps_all_iff (rawData : list Strict.DataPoint) :
  (Strict.validData (Strict.anomaly_filter rawData) = rawData
   ↔ Sorted (λ a b, Strict.downloads b ≤ Strict.downloads a) rawData)
  ∧ (Strict.skippedCount (Strict.anomaly_filter rawData) = 0%nat
     ↔ Sorted (λ a b, Strict.downloads b ≤ Strict.downloads a) rawData).
Proof.
  rewrite <- all_valid_iff_descending.
  unfold Strict.anomaly_filter. rewrite filter_loop_spec by done.
  cbv zeta. rewrite drop_0. cbn [Strict.validData Strict.skippedCount app].
  rewrite Nat.add_0_l.
  assert ((λ j (p : Strict.DataPoint), ((0 + j)%nat, p)) = pair) as -> by done.
  split.
  - rewrite <- filter_all. split; [|by intros ->; apply (snd_imap_pair id)].
    intros Heq.
    pose proof (filter_lengths (λ ip, Strict.is_valid rawData ip.1 ip.2)
                  (imap pair rawData)) as Hlen.
    rewrite <- (length_fmap snd), Heq, length_imap in Hlen.
    apply filter_all, filter_negb_nil, length_zero_iff_nil. lia.
  - rewrite <- filter_negb_nil. apply length_zero_iff_nil.
Qed.

(** ** The running floor: what it bounds and what it keeps *)

Lemma StronglySorted_last {A} (R : relation A) (l : list A) (x : A) :
  StronglySorted R l → last l = Some x → Forall (λ y, y = x ∨ R y x) l.
Proof.
  induction 1 as [|y l Hsorted IH Hall]; intros Hlast; [done|].
  destruct l as [|z l].
  - simpl in Hlast. simplify_eq. repeat constructor.
  - rewrite last_cons_cons in Hlast. constructor; [|by apply IH].
    right. rewrite Forall_forall in Hall. apply Hall.
    by apply last_Some_elem_of.
Qed.

(** X4.  In the simple script the newest extracted point is accepted and
    caps the history: every accepted entry has a download count between
    the final [lastValidDownloads] and the count of that newest point.  An
    older point with a higher count than the newest one is never kept. *)
Theorem newest_count_caps_history (show : string → option Snapshot)
    (pluginName : string) (commits : list CommitRecord) (newest : Simple.Entry) :
  head (extracted show pluginName commits) = Some newest →
  let final := Simple.loop show pluginName commits in
  head (Simple.history final) = Some newest
  ∧ Forall (λ e, Simple.lastValidDownloads final ≤ Simple.downloads e
                 ∧ Simple.downloads e ≤ Simple.downloads newest)
           (Simple.history final).
Proof.
  intros Hnewest final.
  destruct (simple_loop_refines show pluginName commits Simple.init)
    as (cands & _ & Hhead & _ & Hhist & Hlast).
  specialize (Hhead eq_refl). rewrite Hnewest in Hhead.
  simpl in Hhist, Hlast. subst final. unfold Simple.loop.
  rewrite Hlast, Hhist.
  destruct cands as [|e0 rest]; simplify_eq/=.
  split; [done|].
  destruct (sequential_from_descending (Simple.downloads newest) rest)
    as [Hcap Hsorted].
  assert (StronglySorted (λ a b, Simple.downloads b ≤ Simple.downloads a)
            (newest :: sequential_from (Simple.downloads newest) rest))
    as Hall by by constructor.
  destruct (last (newest :: sequential_from (Simple.downloads newest) rest))
    as [oldest|] eqn:Holdest; [|by apply last_None in Holdest].
  pose proof (StronglySorted_last _ _ _ Hall Holdest) as Hfloor. simpl.
  apply Forall_forall. intros e He.
  rewrite Forall_forall in Hfloor. specialize (Hfloor e He).
  split; [destruct Hfloor as [->|?]; lia|].
  apply elem_of_cons in He as [->|He]; [lia|].
  rewrite Forall_forall in Hcap. by apply Hcap.
Qed.

Lemma newest_count_caps_history_witness :
  head (extracted sameday_repo "p" sameday_commits)
  = Some (Simple.entry_of (mkCommit "a" (day 5)) {[ "downloads" := JNum 100 ]})
  ∧ Forall (λ e, Simple.downloads e ≤ 100)
           (Simple.history (Simple.loop sameday_repo "p" sameday_commits)).
Proof.
  split; [reflexivity|].
  destruct (newest_count_caps_history sameday_repo "p" sameday_commits
              _ eq_refl) as [_ Hcap].
  eapply Forall_impl; [exact Hcap|]. by intros e [_ ?].
Defined.

Lemma simple_keeps_all (show : string → option Snapshot)
    (pluginName : string) (commits : list CommitRecord) (s : Simple.State) :
  let raw := extracted show pluginName commits in
  Forall (λ e, Simple.has_date (Simple.history s) (Simple.date e) = false) raw →
  NoDup (Simple.date <$> raw) →
  Sorted (λ a b, Simple.downloads b ≤ Simple.downloads a) raw →
  (Simple.foundFirstEntry s = true →
   ∀ e, head raw = Some e → Simple.downloads e ≤ Simple.lastValidDownloads s) →
  Simple.history (for_of (Simple.body show pluginName) s commits)
  = Simple.history s ++ raw.
Proof.
  revert s. induction commits as [|c cs IH]; intros s; simpl.
  { intros _ _ _ _. by rewrite app_nil_r. }
  pose proof (simple_body_cases show pluginName s c) as Hcase.
  destruct (show (c_hash c)) as [statsData|].
  2:{ destruct Hcase as (s' & -> & Hh & Hl & Hf).
      intros Hfresh Hnodup Hsorted Hfloor.
      rewrite <- Hh. apply IH; [by rewrite Hh | done | done |].
      rewrite Hf, Hl. done. }
  destruct (plugin_of statsData pluginName) as [pluginData|].
  2:{ destruct Hcase as (s' & -> & Hh & _). intros _ _ _ _.
      by rewrite Hh, app_nil_r. }
  simpl in Hcase. set (e := Simple.entry_of c pluginData) in *.
  intros [Hfresh_e Hfresh]%Forall_cons Hnodup Hsorted Hfloor.
  csimpl in Hnodup. apply NoDup_cons in Hnodup as [He Hnodup].
  apply Sorted_inv in Hsorted as [Hsorted Hhd].
  change (date_of (c_timestamp c)) with (Simple.date e) in Hcase.
  rewrite Hfresh_e in Hcase.
  assert (∃ s', Simple.body show pluginName s c = Next s' ∧ pushed e s s')
    as (s' & -> & Hh & Hl & Hf).
  { revert Hcase. destruct (Simple.foundFirstEntry s); [|done].
    specialize (Hfloor eq_refl e eq_refl).
    destruct (_ <=? _) eqn:Hle; [done|].
    unfold e in Hfloor. simpl in Hfloor. lia. }
  rewrite IH; [by rewrite Hh, <- app_assoc | | done | done |].
  - rewrite Hh. rewrite Forall_forall in Hfresh. apply Forall_forall.
    intros e' He'. rewrite has_date_app, (Hfresh e' He'). simpl.
    rewrite orb_false_r. apply Z.eqb_neq. intros Heq. apply He.
    rewrite Heq. by apply list_elem_of_fmap_2.
  - intros _ e' He'. rewrite Hl.
    destruct (extracted show pluginName cs); simplify_eq/=. by inv Hhd.
Qed.

(** X5.  The simple script keeps every extracted point exactly when the
    points fall on pairwise different calendar days and their download
    counts never increase from a point to the next older one. *)
Theorem sequential_filter_keeps_all_iff (show : string → option Snapshot)
    (pluginName : string) (commits : list CommitRecord) :
  let raw := extracted show pluginName commits in
  Simple.history (Simple.loop show pluginName commits) = raw
  ↔ NoDup (Simple.date <$> raw)
    ∧ Sorted (λ a b, Simple.downloads b ≤ Simple.downloads a) raw.
Proof.
  intros raw. split.
  - intros Hall. rewrite <- Hall. split; [apply simple_loop_dates|].
    destruct (simple_loop_refines show pluginName commits Simple.init)
      as (cands & _ & _ & _ & Hhist & _).
    unfold Simple.loop. rewrite Hhist. simpl.
    apply StronglySorted_Sorted, sequential_policy_descending.
  - intros [Hnodup Hsorted]. unfold Simple.loop.
    rewrite simple_keeps_all; [done | | done | done | done].
    apply Forall_forall. by intros e _.
Qed.

(** ** The two scripts read the same commits *)



(** ** Beta versions *)

(** X7.  The "Skipping beta version" message is printed once for each
    field of the plugin record whose key ends in [-beta] and is not
    [downloads] or [updated], and for no other key; every other field that
    is not reserved is in the version map, except a field [__proto__],
    whose assignment stores nothing. *)
Theorem beta_exclusions_logged (pluginData : PluginRecord) :
  NoDup (versions_strict_loop pluginData).2
  ∧ (∀ key,
       key ∈ (versions_strict_loop pluginData).2
       ↔ is_Some (pluginData !! key)
         ∧ key ≠ "downloads" ∧ key ≠ "updated"
         ∧ ∃ pre, key = pre +:+ "-beta")
  ∧ (∀ key v,
       pluginData !! key = Some v →
       key = "downloads" ∨ key = "updated"
       ∨ key ∈ (versions_strict_loop pluginData).2
       ∨ (key = "__proto__" ∧ versions_strict pluginData !! key = None)
       ∨ versions_strict pluginData !! key = Some v).
Proof.
  assert (NoDup (versions_strict_loop pluginData).2
          ∧ ∀ key, key ∈ (versions_strict_loop pluginData).2
                   ↔ is_Some (pluginData !! key) ∧ reserved key = false
                     ∧ endsWith key "-beta" = true) as [Hnodup Hlogged].
  { unfold versions_strict_loop.
    apply (map_fold_weak_ind (λ acc m,
             NoDup acc.2
             ∧ ∀ key, key ∈ acc.2
                      ↔ is_Some (m !! key) ∧ reserved key = false
                        ∧ endsWith key "-beta" = true)).
    { split; [constructor|]. intros key. rewrite lookup_empty. simpl.
      split; [by intros ?%elem_of_nil | by intros [[? ?] _]]. }
    intros i x m acc Hi [IHnodup IH].
    assert (i ∉ acc.2) as Hfresh.
    { intros [[? Hsome] _]%IH. congruence. }
    assert (∀ key, key ≠ i → is_Some (<[i:=x]> m !! key) ↔ is_Some (m !! key))
      as Hother by (by intros key ?; rewrite lookup_insert_ne).
    destruct (reserved i) eqn:Hr; [|destruct (endsWith i "-beta") eqn:Hb]; simpl.
    - split; [done|]. intros key. rewrite IH.
      destruct (decide (key = i)) as [->|Hne]; [|by rewrite Hother].
      rewrite Hi. split; [by intros [[? ?] _] | intros (_ & ? & _); congruence].
    - split.
      + apply NoDup_app. split_and!; [done | | apply NoDup_singleton].
        by intros key Hkey ->%list_elem_of_singleton.
      + intros key. rewrite elem_of_app, list_elem_of_singleton, IH.
        destruct (decide (key = i)) as [->|Hne].
        * rewrite lookup_insert_eq. split; [by eauto | by right].
        * rewrite Hother by done. split; [by intros [?|?] | by left].
    - split; [done|]. intros key. rewrite IH.
      destruct (decide (key = i)) as [->|Hne]; [|by rewrite Hother].
      rewrite Hi. split; [by intros [[? ?] _] | intros (_ & _ & ?); congruence]. }
  split_and!; [done | |].
  - intros key. rewrite Hlogged. split.
    + intros (Hsome & Hr & Hb%endsWith_spec).
      assert (¬ (key = "downloads" ∨ key = "updated")) as Hn
        by (rewrite <- reserved_spec; congruence).
      tauto.
    + intros (Hsome & Hd & Hu & Hb%endsWith_spec). split_and!; [done | | done].
      destruct (reserved key) eqn:Hr; [|done].
      apply reserved_spec in Hr. tauto.
  - intros key v Hkey. rewrite versions_strict_lookup, Hlogged.
    destruct (reserved key) eqn:Hr.
    { apply reserved_spec in Hr. tauto. }
    destruct (endsWith key "-beta") eqn:Hb.
    { right; right; left. eauto. }
    destruct (String.eqb key "__proto__") eqn:Hp; simpl.
    { apply String.eqb_eq in Hp. tauto. }
    by repeat right.
Qed.

(** ** The history object of the strict script and its reader *)

Section StoreElems.
Context {V : Type}.
Implicit Types (obj writes : list (Z * V)).

Lemma set_elem (k : Z) (v : V) obj (kv : Z * V) :
  kv ∈ Js.set k v obj → kv ∈ obj ∨ kv = (k, v).
Proof.
  induction obj as [|[k' v'] obj IH]; simpl.
  - intros ->%list_elem_of_singleton. by right.
  - destruct (k' =? k).
    + intros [->|?]%elem_of_cons; [by right | left; by right].
    + intros [->|Hin]%elem_of_cons; [left; by left|].
      destruct (IH Hin); [left; by right | by right].
Qed.

Lemma store_elem writes obj (kv : Z * V) :
  kv ∈ store obj writes → kv ∈ obj ∨ kv ∈ writes.
Proof.
  revert obj. induction writes as [|[k v] writes IH]; intros obj; csimpl.
  - by left.
  - intros [[?| ->]%set_elem|?]%IH; [by left | right; by left | right; by right].
Qed.

Lemma set_keys_incl (k : Z) (v : V) obj (x : Z) :
  x ∈ obj.*1 ∨ x = k → x ∈ (Js.set k v obj).*1.
Proof.
  induction obj as [|[k' v'] obj IH]; csimpl.
  - intros [?%elem_of_nil| ->]; [done | by left].
  - destruct (k' =? k) eqn:Hk; csimpl.
    + apply Z.eqb_eq in Hk as ->.
      intros [[->|?]%elem_of_cons| ->]; [by left | by right | by left].
    + intros [[->|?]%elem_of_cons| ->]; [by left | right; auto | right; auto].
Qed.

Lemma store_keys_incl writes obj (x : Z) :
  x ∈ obj.*1 ∨ x ∈ writes.*1 → x ∈ (store obj writes).*1.
Proof.
  revert obj. induction writes as [|[k v] writes IH]; intros obj; csimpl.
  - intros [?|?%elem_of_nil]; done.
  - intros [?|[->|?]%elem_of_cons]; apply IH;
      [left; apply set_keys_incl; by left
      |left; apply set_keys_incl; by right
      |by right].
Qed.
End StoreElems.

Section HistoryFacts.
Context `{JsArith}.

Lemma growth_chain_elem (prev : Strict.DataPoint)
    (points : list Strict.DataPoint) (w : Z * Strict.HistoryEntry) :
  w ∈ growth_chain prev points → ∃ p g, p ∈ points ∧ w = written p g.
Proof.
  revert prev. induction points as [|p later IH]; intros prev; simpl.
  - by intros ?%elem_of_nil.
  - intros [->|Hin]%elem_of_cons.
    + eexists p, _. split; [by left | done].
    + destruct (IH _ Hin) as (q & g & ? & ->). exists q, g. split; [by right | done].
Qed.

Lemma growth_writes_elem (points : list Strict.DataPoint)
    (w : Z * Strict.HistoryEntry) :
  w ∈ growth_writes points → ∃ p g, p ∈ points ∧ w = written p g.
Proof.
  destruct points as [|p later]; simpl; [by intros ?%elem_of_nil|].
  intros [->|Hin]%elem_of_cons.
  - eexists p, _. split; [by left | done].
  - destruct (growth_chain_elem _ _ _ Hin) as (q & g & ? & ->).
    exists q, g. split; [by right | done].
Qed.

Lemma collect_points_origin (show : string → option Snapshot)
    (pluginName : string) (commits : list CommitRecord) (s : Strict.Collected) :
  ∃ points,
    Strict.rawData (for_of (Strict.body show pluginName) s commits)
    = Strict.rawData s ++ points
    ∧ Forall (λ p, ∃ c statsData pluginData,
                c ∈ commits
                ∧ show (c_hash c) = Some statsData
                ∧ plugin_of statsData pluginName = Some pluginData
                ∧ p = Strict.point_of c pluginData)
             points.
Proof.
  revert s. induction commits as [|c cs IH]; intros s; csimpl.
  { exists []. by rewrite app_nil_r. }
  unfold Strict.body.
  destruct (show (c_hash c)) as [statsData|] eqn:Hshow.
  - destruct (plugin_of statsData pluginName) as [pluginData|] eqn:Hplugin.
    + match goal with
      | |- context [for_of _ ?s' cs] => destruct (IH s') as (points & Hraw & Hall)
      end.
      exists (Strict.point_of c pluginData :: points). split.
      * etrans; [exact Hraw|]. simpl. by rewrite <- app_assoc.
      * constructor.
        { exists c, statsData, pluginData. split_and!; [by left | done..]. }
        eapply Forall_impl; [exact Hall|]. simpl.
        intros p (c' & sd & pd & ? & ?). exists c', sd, pd. split; [by right | done].
    + exists []. simpl. by rewrite app_nil_r.
  - match goal with
    | |- context [for_of _ ?s' cs] => destruct (IH s') as (points & Hraw & Hall)
    end.
    exists points. split; [exact Hraw|].
    eapply Forall_impl; [exact Hall|]. simpl.
    intros p (c' & sd & pd & ? & ?). exists c', sd, pd. split; [by right | done].
Qed.

(** Every entry of the strict history comes from a commit and its plugin
    record. *)
Lemma strict_run_entry (show : string → option Snapshot)
    (pluginName : string) (commits : list CommitRecord)
    (k : Z) (e : Strict.HistoryEntry) :
  (k, e) ∈ Strict.run show pluginName commits →
  ∃ c statsData pluginData,
    c ∈ commits
    ∧ show (c_hash c) = Some statsData
    ∧ plugin_of statsData pluginName = Some pluginData
    ∧ k = c_timestamp c
    ∧ Strict.h_date e = date_of (c_timestamp c)
    ∧ Strict.h_downloads e = downloads_of pluginData
    ∧ Strict.h_versions e = versions_strict pluginData.
Proof.
  unfold Strict.run. rewrite build_history_writes.
  intros [?%elem_of_nil|Hw]%store_elem; [done|].
  apply growth_writes_elem in Hw as (p & g & Hp & [= -> ->]).
  rewrite elem_of_reverse in Hp.
  pose proof (elem_of_sublist _ _ _ Hp (validData_sublist _)) as Hraw.
  unfold Strict.sorted_raw in Hraw. rewrite sort_perm in Hraw.
  destruct (collect_points_origin show pluginName commits
              (Strict.mkCollected [] [])) as (points & Hpoints & Hall).
  unfold Strict.collect in Hraw. rewrite Hpoints in Hraw. simpl in Hraw.
  rewrite Forall_forall in Hall.
  destruct (Hall p Hraw) as (c & sd & pd & ? & ? & ? & ->).
  by exists c, sd, pd.
Qed.

(** X8.  The keys of the history object written by the strict script are
    exactly the timestamps of the validated points, each once ("Saved N
    data points" counts distinct timestamps), and each entry carries the
    calendar day of its key and the download count and version map read
    (by [statsData[pluginName]]) from a commit with that timestamp: from
    the plugin's own record there, unless the plugin name is a property
    name of [Object.prototype]. *)
Theorem strict_history_keys (show : string → option Snapshot)
    (pluginName : string) (commits : list CommitRecord) :
  let validData :=
    Strict.validData
      (Strict.anomaly_filter (Strict.sorted_raw show pluginName commits)) in
  let history := Strict.run show pluginName commits in
  NoDup history.*1
  ∧ (∀ t, t ∈ history.*1 ↔ t ∈ Strict.timestamp <$> validData)
  ∧ (length history ≤ length validData)%nat
  ∧ (∀ k e, (k, e) ∈ history →
       Strict.h_date e = date_of k
       ∧ ∃ c statsData pluginData,
           c ∈ commits ∧ c_timestamp c = k
           ∧ show (c_hash c) = Some statsData
           ∧ plugin_of statsData pluginName = Some pluginData
           ∧ (inherited pluginName = false →
              statsData !! pluginName = Some pluginData)
           ∧ Strict.h_downloads e = downloads_of pluginData
           ∧ Strict.h_versions e = versions_strict pluginData).
Proof.
  intros validData history.
  assert (NoDup history.*1) as Hnodup.
  { pose proof (strict_run_keys_ascending show pluginName commits) as Hsorted.
    fold history in Hsorted.
    induction Hsorted as [|x l _ IH Hall]; constructor; [|done].
    intros Hx. rewrite Forall_forall in Hall. specialize (Hall x Hx). lia. }
  assert (∀ t, t ∈ history.*1 ↔ t ∈ Strict.timestamp <$> validData) as Hkeys.
  { intros t. subst history. unfold Strict.run. rewrite build_history_writes.
    fold validData. split.
    - intros [?%elem_of_nil|Ht]%store_keys_elem; [done|].
      by rewrite growth_writes_keys, fmap_reverse, elem_of_reverse in Ht.
    - intros Ht. apply store_keys_incl. right.
      by rewrite growth_writes_keys, fmap_reverse, elem_of_reverse. }
  split_and!; [done | done | |].
  - rewrite <- (length_fmap fst history),
            <- (length_fmap Strict.timestamp validData).
    apply submseteq_length, NoDup_submseteq; [done|].
    intros t. by rewrite Hkeys.
  - intros k e (c & sd & pd & ? & ? & Hread & -> & ? & ? & ?)%strict_run_entry.
    split; [done|]. exists c, sd, pd. split_and!; try done.
    by apply plugin_of_not_inherited.
Qed.

(** X9.  What the chart script reads back from an entry written by the
    strict script: the calendar day of the entry at midnight, the same
    download count, and as version map the version map of the entry plus
    the key [dailyGrowth], which the reader does not exclude. *)
Theorem chart_reads_strict_entry (show : string → option Snapshot)
    (pluginName : string) (commits : list CommitRecord)
    (k : Z) (e : Strict.HistoryEntry) :
  (k, e) ∈ Strict.run show pluginName commits →
  let point := Render.point_of (file_entry e) in
  Render.date point = date_of k * ms_per_day
  ∧ Render.downloads point = Strict.h_downloads e
  ∧ is_Some (Render.versions point !! "dailyGrowth")
  ∧ ∀ key, key ≠ "dailyGrowth" →
           Render.versions point !! key = Strict.h_versions e !! key.
Proof.
  intros (c & sd & pd & _ & _ & _ & -> & Hdate & _ & Hversions)%strict_run_entry.
  assert (∀ key, reserved key || String.eqb key "__proto__" = true →
                 Strict.h_versions e !! key = None)
    as Hdropped.
  { intros key Hkey. rewrite Hversions. by apply versions_strict_dropped. }
  simpl. split_and!.
  - by rewrite Hdate.
  - unfold downloads_of, data_object.
    rewrite lookup_union_r by by apply Hdropped.
    rewrite lookup_insert_eq. simpl. by destruct (Strict.h_downloads e).
  - rewrite versions_inclusive_lookup. simpl. unfold data_object.
    apply lookup_union_is_Some. right.
    rewrite lookup_insert_ne by done. by rewrite lookup_singleton_eq.
  - intros key Hkey. rewrite versions_inclusive_lookup.
    destruct (reserved key || String.eqb key "__proto__") eqn:Hr;
      [by rewrite Hdropped|].
    apply orb_false_elim in Hr as [Hr _].
    unfold data_object.
    destruct (Strict.h_versions e !! key) as [v|] eqn:Hv.
    + by erewrite lookup_union_Some_l.
    + rewrite lookup_union_r by done.
      rewrite lookup_insert_ne, lookup_singleton_ne; [done | done |].
      intros <-. by vm_compute in Hr.
Qed.
End HistoryFacts.

Lemma chart_reads_strict_entry_witness :
  ∃ k e,
    (k, e) ∈ @Strict.run exact_arith scenario_repo "p" scenario_commits
    ∧ Render.downloads (Render.point_of (file_entry e)) = 100
    ∧ Render.versions (Render.point_of (file_entry e)) !! "dailyGrowth"
      = Some (JNum 100).
Proof.
  eexists (day 0), _. split; [vm_compute; left|].
  split; [|reflexivity].
  by destruct (@chart_reads_strict_entry exact_arith scenario_repo "p"
                 scenario_commits (day 0) _ ltac:(vm_compute; left))
    as (_ & -> & _).
Defined.

(** ** The colour cycle of the chart script *)

Lemma colors_loop_spec (n i : nat) (colors : list string) :
  Render.colors_loop n i colors
  = colors
      ++ ((λ j, default "" (Render.baseColors
                              !! (j mod length Render.baseColors)%nat))
            <$> seq i n).
Proof.
  revert i colors. induction n as [|n IH]; intros i colors; simpl.
  - by rewrite app_nil_r.
  - by rewrite IH, <- app_assoc.
Qed.

Lemma generateColors_lookup (count i : nat) :
  (i < count)%nat →
  Render.generateColors count !! i = Render.baseColors !! (i mod 10)%nat.
Proof.
  intros Hi. unfold Render.generateColors. rewrite colors_loop_spec.
  rewrite app_nil_l, list_lookup_fmap, lookup_seq_lt by done.
  change (length Render.baseColors) with 10%nat.
  pose proof (Nat.mod_upper_bound i 10 ltac:(lia)) as Hlt.
  rewrite Nat.add_0_l. cbn [fmap option_fmap option_map].
  destruct (Render.baseColors !! (i mod 10)%nat) as [c|] eqn:Hc; [done|].
  apply lookup_ge_None in Hc.
  change (length Render.baseColors) with 10%nat in Hc. lia.
Qed.

Lemma length_generateColors (count : nat) :
  length (Render.generateColors count) = count.
Proof.
  unfold Render.generateColors. rewrite colors_loop_spec.
  by rewrite app_nil_l, length_fmap, length_seq.
Qed.

Lemma NoDup_baseColors : NoDup Render.baseColors.
Proof. apply (bool_decide_unpack _). by vm_compute. Qed.

Lemma NoDup_generateColors (count : nat) :
  (count ≤ 10)%nat → NoDup (Render.generateColors count).
Proof.
  intros Hfew. apply NoDup_alt. intros i j c Hi Hj.
  pose proof (lookup_lt_Some _ _ _ Hi) as Hilt.
  pose proof (lookup_lt_Some _ _ _ Hj) as Hjlt.
  rewrite length_generateColors in Hilt, Hjlt.
  rewrite generateColors_lookup in Hi, Hj by done.
  rewrite Nat.mod_small in Hi, Hj by lia.
  eapply NoDup_lookup; [apply NoDup_baseColors | done..].
Qed.

(** X10.  [generateColors(count)] returns [count] colours, the i-th being
    base colour [i mod 10]; the colours are pairwise distinct exactly when
    [count] is at most 10, the number of base colours. *)
Theorem generateColors_cycle (count : nat) :
  length (Render.generateColors count) = count
  ∧ (∀ i, (i < count)%nat →
          Render.generateColors count !! i
          = Render.baseColors !! (i mod 10)%nat)
  ∧ (NoDup (Render.generateColors count) ↔ (count ≤ 10)%nat).
Proof.
  split_and!; [apply length_generateColors | apply generateColors_lookup |].
  split.
  - intros Hnodup. destruct (decide (count ≤ 10)%nat) as [|Hmany]; [done|].
    rewrite NoDup_alt in Hnodup.
    assert (0 = 10)%nat; [|done].
    apply (Hnodup 0%nat 10%nat "#0066cc");
      by rewrite generateColors_lookup by lia.
  - apply NoDup_generateColors.
Qed.

(** ** The table of daily increases of the simple script *)

Lemma increases_from (pre : list Simple.Entry) (p : Simple.Entry)
    (l : list Simple.Entry) :
  imap (λ index entry,
          if (S (length pre) + index =? 0)%nat then 0
          else match (pre ++ p :: l) !! (S (length pre) + index - 1)%nat with
               | Some previous =>
                   Simple.downloads entry - Simple.downloads previous
               | None => 0
               end) l
  = steps (Simple.downloads p) (Simple.downloads <$> l).
Proof.
  revert pre p. induction l as [|q l IH]; intros pre p; [done|].
  csimpl. f_equal.
  - replace (length pre + 0 - 0)%nat with (length pre + 0)%nat by lia.
    by rewrite lookup_app_r, Nat.add_0_r, Nat.sub_diag by lia.
  - rewrite <- (IH (pre ++ [p]) q). apply imap_ext. intros i e _. simpl.
    rewrite length_app, <- app_assoc. simpl.
    replace (length pre + 1 + i - 0)%nat with (length pre + S i - 0)%nat by lia.
    done.
Qed.

Lemma increases_steps (e : Simple.Entry) (l : list Simple.Entry) :
  Report.increases (e :: l)
  = 0 :: steps (Simple.downloads e) (Simple.downloads <$> l).
Proof.
  unfold Report.increases. csimpl. f_equal.
  rewrite <- (increases_from [] e l). by apply imap_ext.
Qed.

Lemma steps_sum (prev : Z) (values : list Z) :
  prev + foldr Z.add 0 (steps prev values) = default prev (last values).
Proof.
  revert prev. induction values as [|x l IH]; intros prev; simpl; [lia|].
  specialize (IH x). destruct l as [|y l]; [simpl; lia|].
  rewrite last_cons_cons.
  destruct (last (y :: l)) eqn:Hlast; [|by apply last_None in Hlast].
  simpl in *. lia.
Qed.

Lemma steps_nonneg (prev : Z) (values : list Z) :
  Sorted Z.le (prev :: values) → Forall (λ d, 0 ≤ d) (steps prev values).
Proof.
  revert prev. induction values as [|x l IH]; intros prev Hsorted; simpl;
    [constructor|].
  inv Hsorted. constructor; [|by apply IH].
  match goal with Hhd : HdRel _ _ _ |- _ => inv Hhd end. lia.
Qed.

Lemma increases_nonneg (data : list Simple.Entry) :
  Sorted Z.le (Report.values data) →
  Forall (λ d, 0 ≤ d) (Report.increases data).
Proof.
  intros Hsorted. destruct data as [|e l]; [constructor|].
  rewrite increases_steps. constructor; [done|]. by apply steps_nonneg.
Qed.

(** X11.  The "Daily Increase" column of the simple script has one value
    per entry, starting with 0; added to the first entry's count the
    increases sum to the reported "Total Downloads", and none is negative
    when the counts are in non-decreasing order. *)
Theorem increases_telescope (data : list Simple.Entry) :
  length (Report.increases data) = length data
  ∧ (∀ first, head data = Some first →
       head (Report.increases data) = Some 0
       ∧ Simple.downloads first + foldr Z.add 0 (Report.increases data)
         = Report.total data)
  ∧ (Sorted Z.le (Report.values data) →
     Forall (λ d, 0 ≤ d) (Report.increases data)).
Proof.
  split_and!.
  - unfold Report.increases. by rewrite length_imap.
  - intros first Hfirst. destruct data as [|e l]; [done|].
    injection Hfirst as ->.
    rewrite increases_steps. split; [done|].
    cbn [foldr]. rewrite Z.add_0_l, steps_sum. unfold Report.total.
    destruct l as [|q l]; [done|].
    rewrite last_cons_cons, fmap_last.
    by destruct (last (q :: l)) eqn:Hlast; [|apply last_None in Hlast].
  - apply increases_nonneg.
Qed.

(** X12.  When the commits are listed newest first, the report of the
    simple script shows as "Total Downloads" the count of the newest
    extracted point (0 when nothing was extracted), its dates are strictly
    ascending and no daily increase is negative. *)
Theorem report_of_newest_first (show : string → option Snapshot)
    (pluginName : string) (commits : list CommitRecord) :
  StronglySorted (λ a b, c_timestamp b ≤ c_timestamp a) commits →
  let data := Simple.run show pluginName commits in
  Report.total data
  = from_option Simple.downloads 0
      (head (extracted show pluginName commits))
  ∧ StronglySorted Z.lt (Report.labels data)
  ∧ Forall (λ d, 0 ≤ d) (Report.increases data).
Proof.
  intros Hnewest data.
  destruct (simple_run_monotone show pluginName commits Hnewest)
    as [Hrun Hsorted].
  fold data in Hrun, Hsorted.
  destruct (simple_loop_refines show pluginName commits Simple.init)
    as (cands & _ & Hhead & _ & Hhist & _).
  specialize (Hhead eq_refl). simpl in Hhist.
  split_and!.
  - unfold Report.total. rewrite Hrun, last_reverse.
    unfold Simple.loop. rewrite Hhist, <- Hhead. by destruct cands.
  - unfold Report.labels.
    eapply (StronglySorted_fmap
              _ (λ a b, Simple.date a ≤ Simple.date b
                        ∧ Simple.date a ≠ Simple.date b)).
    { intros x y. lia. }
    apply (StronglySorted_strict Simple.date Z.le).
    + apply Sorted_StronglySorted; [intros x y z; lia|].
      apply simple_run_sorted.
    + unfold data, Simple.run. rewrite sort_perm. apply simple_loop_dates.
  - by apply increases_nonneg.
Qed.

Lemma report_of_newest_first_witness :
  Report.total (Simple.run scenario_repo "p" scenario_commits) = 500
  ∧ Forall (λ d, 0 ≤ d)
           (Report.increases (Simple.run scenario_repo "p" scenario_commits)).
Proof.
  assert (StronglySorted (λ a b, c_timestamp b ≤ c_timestamp a)
            scenario_commits) as Hnewest.
  { repeat constructor; by vm_compute. }
  destruct (report_of_newest_first scenario_repo "p" scenario_commits Hnewest)
    as (Htotal & _ & Hincreases).
  split; [by rewrite Htotal | exact Hincreases].
Defined.

(** ** Version releases found by the chart script *)

Lemma note_version_inv (points : list Render.Point) (idx : nat)
    (p : Render.Point) (st : Render.Releases) (v : string) :
  points !! idx = Some p →
  is_Some (Render.versions p !! v) →
  releases_inv points idx st →
  releases_inv points idx (Render.note_version p idx st v)
  ∧ v ∈ Render.processedVersions (Render.note_version p idx st v)
  ∧ (∀ w, w ∈ Render.processedVersions st →
          w ∈ Render.processedVersions (Render.note_version p idx st v)).
Proof.
  intros Hp Hv Hinv. unfold Render.note_version.
  destruct (decide (v ∈ Render.processedVersions st)) as [Hin|Hnew];
    [by split_and!|].
  destruct Hinv as (Hidx & Hnodup & Hproc & Hsorted & Hbound & Hfirst & Hseen).
  unfold releases_inv. simpl. split_and!.
  - by rewrite fmap_app, Hidx.
  - rewrite fmap_app. apply NoDup_app. split_and!; [done| |apply NoDup_singleton].
    intros w Hw ->%list_elem_of_singleton. by apply Hnew, Hproc.
  - intros w. rewrite fmap_app, elem_of_app, elem_of_union, elem_of_singleton.
    simpl. rewrite list_elem_of_singleton, Hproc. tauto.
  - rewrite fmap_app. apply StronglySorted_app.
    split_and!; [|done|by repeat constructor].
    intros i1 i2 (r & -> & Hr)%list_elem_of_fmap ->%list_elem_of_singleton.
    rewrite Forall_forall in Hbound. by apply Hbound.
  - apply Forall_app. split; [done|]. by repeat constructor.
  - apply Forall_app. split; [done|]. repeat constructor.
    exists p. simpl. split_and!; [done..|].
    intros j p' Hj Hp'.
    destruct (Render.versions p' !! v) eqn:Hlook; [|done].
    destruct Hnew. by apply (Hseen j p' v).
  - intros j p' w Hj Hp' Hw. apply elem_of_union. right. by apply (Hseen j p').
  - apply elem_of_union. left. by apply elem_of_singleton.
  - intros w Hw. apply elem_of_union. by right.
Qed.

Lemma visit_keys_inv (points : list Render.Point) (idx : nat)
    (p : Render.Point) (keys : list string) (st : Render.Releases) :
  points !! idx = Some p →
  Forall (λ v, is_Some (Render.versions p !! v)) keys →
  releases_inv points idx st →
  let st' := foldl (Render.note_version p idx) st keys in
  releases_inv points idx st'
  ∧ (∀ w, w ∈ Render.processedVersions st ∨ w ∈ keys →
          w ∈ Render.processedVersions st').
Proof.
  intros Hp. revert st. induction keys as [|v keys IH]; intros st Hkeys Hinv.
  { simpl. split; [done|]. by intros w [?|?%elem_of_nil]. }
  inv Hkeys.
  destruct (note_version_inv points idx p st v) as (Hinv' & Hv & Hmono);
    [done..|].
  destruct (IH (Render.note_version p idx st v)) as [Hfinal Hall]; [done..|].
  simpl. split; [done|].
  intros w [Hw|[->|Hw]%elem_of_cons]; apply Hall; auto.
Qed.

Lemma visit_point_inv (points : list Render.Point) (idx : nat)
    (p : Render.Point) (st : Render.Releases) :
  points !! idx = Some p →
  releases_inv points idx st →
  releases_inv points (S idx) (Render.visit_point st (idx, p)).
Proof.
  intros Hp Hinv. unfold Render.visit_point. simpl.
  destruct (visit_keys_inv points idx p (Render.keys_of (Render.versions p)) st)
    as [(Hidx & Hnodup & Hproc & Hsorted & Hbound & Hfirst & Hseen) Hall];
    [done| |done|].
  { apply Forall_forall. intros v (kv & -> & Hkv)%list_elem_of_fmap.
    destruct kv as [k x]. apply elem_of_map_to_list in Hkv. by exists x. }
  split_and!; [done..| | done |].
  - eapply Forall_impl; [exact Hbound|]. simpl. lia.
  - intros j p' v Hj Hp' [x Hv].
    destruct (decide (j = idx)) as [->|Hne].
    + simplify_eq. apply Hall. right.
      apply list_elem_of_fmap. exists (v, x). split; [done|].
      by apply elem_of_map_to_list.
    + apply Hall. left.
      destruct Hinv as (_ & _ & _ & _ & _ & _ & Hbefore).
      apply (Hbefore j p' v); [lia|done|by exists x].
Qed.

Lemma releases_loop_inv (points pre l : list Render.Point)
    (st : Render.Releases) :
  points = pre ++ l →
  releases_inv points (length pre) st →
  releases_inv points (length points)
    (foldl Render.visit_point st (imap (λ i p, ((length pre + i)%nat, p)) l)).
Proof.
  revert pre st. induction l as [|p l IH]; intros pre st -> Hinv.
  { rewrite app_nil_r in *. exact Hinv. }
  csimpl. rewrite Nat.add_0_r.
  assert ((pre ++ p :: l) !! length pre = Some p) as Hp.
  { by rewrite lookup_app_r, Nat.sub_diag by lia. }
  pose proof (visit_point_inv _ _ _ _ Hp Hinv) as Hinv'.
  specialize (IH (pre ++ [p]) (Render.visit_point st (length pre, p))).
  rewrite length_app, <- app_assoc in IH. simpl in IH.
  rewrite Nat.add_1_r in IH. specialize (IH eq_refl Hinv').
  erewrite imap_ext; [exact IH|].
  intros i x _. simpl. f_equal. lia.
Qed.

Lemma releases_inv_final (points : list Render.Point) :
  releases_inv points (length points) (Render.releases points).
Proof.
  unfold Render.releases.
  pose proof (releases_loop_inv points [] points
                (Render.mkReleases [] ∅ []) eq_refl) as Hloop.
  simpl in Hloop. apply Hloop.
  unfold releases_inv. simpl. split_and!; try done; try constructor.
  - by intros ?%elem_of_empty.
  - by intros ?%elem_of_nil.
  - intros j p w Hj. lia.
Qed.

(** X13.  The release records built by the chart script: one per version,
    no version twice, in non-decreasing order of data point, with
    [versionIndices] the list of their positions; each records the first
    data point that lists the version, with that point's date and count,
    and every version listed by some data point has a record. *)
Theorem releases_first_seen (points : list Render.Point) :
  let rel := Render.releases points in
  Render.versionIndices rel = Render.index <$> Render.versionReleases rel
  ∧ NoDup (Render.version <$> Render.versionReleases rel)
  ∧ Sorted le (Render.versionIndices rel)
  ∧ Forall (first_release points) (Render.versionReleases rel)
  ∧ (∀ v, v ∈ Render.version <$> Render.versionReleases rel
          ↔ ∃ p, p ∈ points ∧ is_Some (Render.versions p !! v)).
Proof.
  intros rel.
  destruct (releases_inv_final points)
    as (Hidx & Hnodup & Hproc & Hsorted & Hbound & Hfirst & Hseen).
  fold rel in Hidx, Hnodup, Hproc, Hsorted, Hbound, Hfirst, Hseen.
  split_and!; [done | done | | done |].
  - rewrite Hidx. by apply StronglySorted_Sorted.
  - intros v. split.
    + intros (r & -> & Hr)%list_elem_of_fmap.
      rewrite Forall_forall in Hfirst.
      destruct (Hfirst r Hr) as (p & Hp & Hv & _).
      exists p. split; [by eapply list_elem_of_lookup_2 | done].
    + intros (p & [j Hj]%list_elem_of_lookup & Hv).
      apply Hproc. apply (Hseen j p v); [by eapply lookup_lt_Some|done..].
Qed.

(** ** The version segments of the download curve *)

Lemma datasets_loop_spec (rel : Render.Releases) (versionColors : list string)
    (counts : list Z) (n i : nat) (acc : list Render.Dataset) :
  Render.datasets_loop rel versionColors counts n i acc
  = acc ++ omap (Render.dataset_at rel versionColors counts) (seq i n).
Proof.
  revert i acc. induction n as [|n IH]; intros i acc; simpl.
  - by rewrite app_nil_r.
  - rewrite IH.
    destruct (Render.dataset_at rel versionColors counts i);
      [by rewrite <- app_assoc | done].
Qed.

Lemma length_segment (counts : list Z) (s e : nat) :
  (s ≤ e ≤ length counts)%nat →
  length (Render.segment counts s e) = length counts.
Proof.
  intros Hse. unfold Render.segment, Chart.slice.
  rewrite !Nat2Z.id, !length_app, !length_replicate, length_fmap,
          length_take, length_drop.
  lia.
Qed.

Lemma segment_lookup (counts : list Z) (s e j : nat) (c : Z) :
  (s ≤ e ≤ length counts)%nat →
  counts !! j = Some c →
  Render.segment counts s e !! j
  = Some (if bool_decide (s ≤ j < e)%nat then Some c else None).
Proof.
  intros Hse Hc. pose proof (lookup_lt_Some _ _ _ Hc) as Hj.
  unfold Render.segment, Chart.slice. rewrite !Nat2Z.id.
  assert (length (Some <$> take (e - s) (drop s counts)) = (e - s)%nat)
    as Hlen.
  { rewrite length_fmap, length_take, length_drop. lia. }
  destruct (decide (j < s)%nat) as [Hlt|Hge].
  { rewrite lookup_app_l by (rewrite length_replicate; lia).
    rewrite lookup_replicate_2 by lia.
    by rewrite bool_decide_eq_false_2 by lia. }
  rewrite lookup_app_r by (rewrite length_replicate; lia).
  rewrite length_replicate.
  destruct (decide (j < e)%nat) as [Hin|Hout].
  - rewrite lookup_app_l by lia.
    rewrite list_lookup_fmap, lookup_take_lt, lookup_drop by lia.
    replace (s + (j - s))%nat with j by lia. rewrite Hc.
    by rewrite bool_decide_eq_true_2 by lia.
  - rewrite lookup_app_r by lia. rewrite Hlen.
    rewrite lookup_replicate_2 by lia.
    by rewrite bool_decide_eq_false_2 by lia.
Qed.

Lemma StronglySorted_lookup {A} (R : relation A) (l : list A)
    (i k : nat) (x y : A) :
  StronglySorted R l → (i < k)%nat →
  l !! i = Some x → l !! k = Some y → R x y.
Proof.
  intros Hsorted. revert i k.
  induction Hsorted as [|z l Hsorted IH Hall]; intros i k Hik Hx Hy; [done|].
  destruct k as [|k]; [lia|]. destruct i as [|i]; simpl in *.
  - simplify_eq. rewrite Forall_forall in Hall.
    by eapply Hall, list_elem_of_lookup_2.
  - apply (IH i k); [lia|done..].
Qed.

Section Segments.
Variable rel : Render.Releases.
Variable counts : list Z.
Hypothesis Hsorted : StronglySorted le (Render.versionIndices rel).
Hypothesis Hbound :
  Forall (λ idx, (idx < length counts)%nat) (Render.versionIndices rel).

Lemma cut_lookup (i : nat) :
  (i < length (Render.versionIndices rel))%nat →
  ∃ idx, Render.versionIndices rel !! i = Some idx
         ∧ (idx < length counts)%nat.
Proof.
  intros [idx Hidx]%lookup_lt_is_Some_2. exists idx. split; [done|].
  rewrite Forall_forall in Hbound. by eapply Hbound, list_elem_of_lookup_2.
Qed.

Lemma start_is_previous_end (i : nat) :
  (i < length (Render.versionIndices rel))%nat →
  Render.startIdx_at rel (S i) = Render.endIdx_at rel counts i.
Proof.
  intros Hi. unfold Render.startIdx_at, Render.endIdx_at. simpl.
  rewrite Nat.sub_0_r.
  by rewrite (proj2 (Nat.eqb_neq i _)) by lia.
Qed.

Lemma segment_bounds (i : nat) :
  (i ≤ length (Render.versionIndices rel))%nat →
  (Render.startIdx_at rel i ≤ Render.endIdx_at rel counts i ≤ length counts)%nat.
Proof.
  intros Hi. unfold Render.startIdx_at, Render.endIdx_at.
  destruct (i =? length (Render.versionIndices rel))%nat eqn:Hlast.
  - apply Nat.eqb_eq in Hlast.
    destruct i as [|i]; simpl; [lia|]. rewrite Nat.sub_0_r.
    destruct (cut_lookup i) as (idx & -> & ?); [lia|]. simpl. lia.
  - apply Nat.eqb_neq in Hlast.
    destruct (cut_lookup i) as (idx & Hidx & ?); [lia|]. rewrite Hidx.
    destruct i as [|i]; simpl; [lia|]. rewrite Nat.sub_0_r.
    destruct (cut_lookup i) as (idx' & Hidx' & ?); [lia|]. rewrite Hidx'.
    simpl. split; [|lia].
    by apply (StronglySorted_lookup le _ i (S i) _ _ Hsorted); [lia|..].
Qed.

Lemma segments_ordered (i k : nat) :
  (i < k ≤ length (Render.versionIndices rel))%nat →
  (Render.endIdx_at rel counts i ≤ Render.startIdx_at rel k)%nat.
Proof.
  intros Hik. unfold Render.startIdx_at, Render.endIdx_at.
  rewrite (proj2 (Nat.eqb_neq i _)) by lia.
  rewrite (proj2 (Nat.eqb_neq k 0)) by lia.
  destruct (cut_lookup i) as (x & Hx & _); [lia|].
  destruct (cut_lookup (k - 1)) as (y & Hy & _); [lia|].
  rewrite Hx, Hy. simpl.
  destruct (decide (i = k - 1)%nat) as [->|Hne]; [by simplify_eq|].
  by apply (StronglySorted_lookup le _ i (k - 1) _ _ Hsorted); [lia|..].
Qed.

Lemma segment_exists (j m : nat) :
  (m ≤ length (Render.versionIndices rel))%nat →
  (j < Render.endIdx_at rel counts m)%nat →
  ∃ i, (i ≤ m)%nat
       ∧ (Render.startIdx_at rel i ≤ j < Render.endIdx_at rel counts i)%nat.
Proof.
  induction m as [|m IH]; intros Hm Hj.
  - exists 0%nat. split; [done|]. unfold Render.startIdx_at. simpl. lia.
  - destruct (decide (j < Render.endIdx_at rel counts m)%nat) as [Hlt|Hge].
    + destruct IH as (i & ? & ?); [lia|done|]. exists i. split; [lia|done].
    + exists (S m). split; [done|].
      rewrite start_is_previous_end by lia. lia.
Qed.

Lemma segment_unique (j i k : nat) :
  (i ≤ length (Render.versionIndices rel))%nat →
  (k ≤ length (Render.versionIndices rel))%nat →
  (Render.startIdx_at rel i ≤ j < Render.endIdx_at rel counts i)%nat →
  (Render.startIdx_at rel k ≤ j < Render.endIdx_at rel counts k)%nat →
  i = k.
Proof.
  intros Hi Hk Hji Hjk.
  destruct (Nat.lt_trichotomy i k) as [Hlt|[->|Hgt]]; [|done|].
  - pose proof (segments_ordered i k ltac:(lia)). lia.
  - pose proof (segments_ordered k i ltac:(lia)). lia.
Qed.

Lemma dataset_at_data (versionColors : list string) (i j : nat) (c : Z)
    (d : Render.Dataset) :
  (i ≤ length (Render.versionIndices rel))%nat →
  counts !! j = Some c →
  Render.dataset_at rel versionColors counts i = Some d →
  length (Render.data d) = length counts
  ∧ Render.data d !! j
    = Some (if bool_decide (Render.startIdx_at rel i ≤ j
                            < Render.endIdx_at rel counts i)%nat
            then Some c else None).
Proof.
  intros Hi Hc. unfold Render.dataset_at.
  destruct (_ <? _)%nat; [|done]. intros [= <-]. simpl.
  pose proof (segment_bounds i Hi).
  split; [by apply length_segment | by apply segment_lookup].
Qed.

Lemma partition_of_rounds (versionColors : list string) (j : nat) (c : Z) :
  counts !! j = Some c →
  ∃ before d after,
    omap (Render.dataset_at rel versionColors counts)
         (seq 0 (S (length (Render.versionIndices rel))))
    = before ++ d :: after
    ∧ Render.data d !! j = Some (Some c)
    ∧ Forall (λ d', Render.data d' !! j = Some None) (before ++ after).
Proof.
  intros Hc. pose proof (lookup_lt_Some _ _ _ Hc) as Hj.
  set (L := length (Render.versionIndices rel)).
  destruct (segment_exists j L) as (i & Hi & Hin); [done| |].
  { unfold Render.endIdx_at. fold L. by rewrite Nat.eqb_refl. }
  assert (∃ d, Render.dataset_at rel versionColors counts i = Some d)
    as [d Hd].
  { unfold Render.dataset_at.
    rewrite (proj2 (Nat.ltb_lt _ _)) by lia. by eexists. }
  exists (omap (Render.dataset_at rel versionColors counts) (seq 0 i)), d,
         (omap (Render.dataset_at rel versionColors counts)
               (seq (S i) (L - i))).
  split_and!.
  - replace (S L) with (i + S (L - i))%nat by lia.
    rewrite seq_app, omap_app. simpl. by rewrite Hd.
  - destruct (dataset_at_data versionColors i j c d) as [_ ->]; [done..|].
    by rewrite bool_decide_eq_true_2.
  - apply Forall_forall. intros d' Hd'.
    assert (∃ k, (k ≤ L)%nat ∧ k ≠ i
                 ∧ Render.dataset_at rel versionColors counts k = Some d')
      as (k & Hk & Hne & Hdk).
    { apply elem_of_app in Hd' as [Hd'|Hd'].
      - apply list_elem_of_omap in Hd' as (k & Hk%elem_of_seq & Hdk).
        exists k. split; [lia|]. split; [lia|done].
      - apply list_elem_of_omap in Hd' as (k & Hk%elem_of_seq & Hdk).
        exists k. split; [lia|]. split; [lia|done]. }
    destruct (dataset_at_data versionColors k j c d') as [_ ->]; [done..|].
    rewrite bool_decide_eq_false_2; [done|].
    intros Hjk. apply Hne. by apply (segment_unique j).
Qed.
End Segments.

Lemma releases_cuts (points : list Render.Point) :
  StronglySorted le (Render.versionIndices (Render.releases points))
  ∧ Forall (λ idx, (idx < length (Render.downloadCounts points))%nat)
           (Render.versionIndices (Render.releases points)).
Proof.
  destruct (releases_inv_final points)
    as (Hidx & _ & _ & Hsorted & _ & Hfirst & _).
  rewrite Hidx. split; [done|].
  apply Forall_fmap. eapply Forall_impl; [exact Hfirst|]. simpl.
  intros r (p & Hp & _). unfold Render.downloadCounts.
  rewrite length_fmap. by eapply lookup_lt_Some.
Qed.

(** X14.  The version datasets of the chart partition the download curve:
    every dataset spans all data points, each data point carries its
    download count in exactly one dataset and [null] in all others, and
    no round of the loop asks for an array of negative length. *)
Theorem datasets_partition (points : list Render.Point) :
  let rel := Render.releases points in
  let counts := Render.downloadCounts points in
  Forall (λ d, length (Render.data d) = length points)
         (Render.datasets points)
  ∧ (∀ i, (i ≤ length (Render.versionIndices rel))%nat →
          (Render.startIdx_at rel i ≤ Render.endIdx_at rel counts i
           ≤ length points)%nat)
  ∧ (∀ j c, counts !! j = Some c →
       ∃ before d after,
         Render.datasets points = before ++ d :: after
         ∧ Render.data d !! j = Some (Some c)
         ∧ Forall (λ d', Render.data d' !! j = Some None) (before ++ after)).
Proof.
  intros rel counts.
  destruct (releases_cuts points) as [Hsorted Hbound].
  fold rel counts in Hsorted, Hbound.
  assert (length counts = length points) as Hlen.
  { unfold counts, Render.downloadCounts. by rewrite length_fmap. }
  assert (Render.datasets points
          = omap (Render.dataset_at rel
                    (Render.generateColors
                       (length (Render.versionReleases rel))) counts)
                 (seq 0 (S (length (Render.versionIndices rel)))))
    as Hdatasets.
  { unfold Render.datasets. by rewrite datasets_loop_spec. }
  split_and!.
  - rewrite Hdatasets. apply Forall_forall.
    intros d (i & Hi%elem_of_seq & Hd)%list_elem_of_omap.
    unfold Render.dataset_at in Hd. destruct (_ <? _)%nat; [|done].
    injection Hd as <-. simpl. rewrite <- Hlen.
    apply length_segment, segment_bounds; [done..|lia].
  - intros i Hi. rewrite <- Hlen. by apply segment_bounds.
  - intros j c Hc. rewrite Hdatasets. by apply partition_of_rounds.
Qed.

(** X15.  Line colour against legend colour.  The dataset of the points
    before the first release is labelled [vInitial] and drawn in colour 0;
    the dataset labelled with the [k]-th release is drawn in colour
    [(k + 1) mod n] of the [n] generated colours, whereas the version
    table and the annotation of that release use colour [k]: with 2 to 10
    releases the two colours differ for every release. *)
Theorem dataset_colour_shifted (points : list Render.Point) :
  let rel := Render.releases points in
  let n := length (Render.versionReleases rel) in
  let versionColors := Render.generateColors n in
  length (Render.legend points) = n
  ∧ Forall (λ d,
      (Render.label d = "vInitial"
       ∧ Render.borderColor d = versionColors !! 0%nat)
      ∨ ∃ k r,
          Render.versionReleases rel !! k = Some r
          ∧ Render.label d = "v" +:+ Render.version r
          ∧ Render.borderColor d = versionColors !! (S k mod n)%nat
          ∧ Render.legend points !! k
            = Some ("v" +:+ Render.version r, versionColors !! k)
          ∧ ((2 ≤ n ≤ 10)%nat →
             Render.borderColor d ≠ versionColors !! k))
      (Render.datasets points).
Proof.
  intros rel n versionColors.
  split; [unfold Render.legend; by rewrite length_imap|].
  unfold Render.datasets. rewrite datasets_loop_spec, app_nil_l.
  fold rel. fold n. fold versionColors.
  assert (length (Render.versionIndices rel) = n) as Hlen.
  { destruct (releases_inv_final points) as (Hidx & _). fold rel in Hidx.
    by rewrite Hidx, length_fmap. }
  assert (length versionColors = n) as Hcolors
    by apply length_generateColors.
  apply Forall_forall.
  intros d (i & Hi%elem_of_seq & Hd)%list_elem_of_omap.
  unfold Render.dataset_at in Hd. destruct (_ <? _)%nat; [|done].
  injection Hd as <-. simpl. rewrite Hcolors.
  destruct i as [|k]; simpl.
  { left. split; [done|]. destruct n; [|by rewrite Nat.Div0.mod_0_l].
    simpl. done. }
  right. rewrite Nat.sub_0_r.
  destruct (lookup_lt_is_Some_2 (Render.versionReleases rel) k) as [r Hr];
    [fold n; lia|].
  exists k, r. rewrite Hr. simpl. split_and!; [done..| |].
  - unfold Render.legend. fold rel. fold n. fold versionColors.
    by rewrite list_lookup_imap, Hr.
  - intros Hn.
    assert (NoDup versionColors) as Hnodup.
    { apply NoDup_generateColors. lia. }
    assert (S k mod n < n)%nat as Hmod by (apply Nat.mod_upper_bound; lia).
    destruct (lookup_lt_is_Some_2 versionColors (S k mod n)) as [x Hx];
      [lia|].
    destruct (lookup_lt_is_Some_2 versionColors k) as [y Hy]; [lia|].
    rewrite Hx, Hy. intros [= ->].
    pose proof (NoDup_lookup _ _ _ _ Hnodup Hx Hy) as Heq.
    destruct (decide (S k = n)) as [Hlast|Hmore].
    + rewrite Hlast, Nat.Div0.mod_same in Heq. lia.
    + rewrite Nat.mod_small in Heq by lia. lia.
Qed.

(** ** From the history file to the chart *)

Lemma entries_of_id {V : Type} (obj : list (Z * V)) :
  NoDup obj.*1 → Js.own_keys obj = obj.*1 → entries_of obj = obj.
Proof.
  intros Hnodup Hkeys. unfold entries_of. rewrite Hkeys.
  assert (∀ pre l, obj = pre ++ l →
            omap (λ k, snd <$> list_find (λ kv, kv.1 = k) obj) l.*1 = l)
    as Hgen; [|by apply (Hgen [])].
  intros pre l. revert pre.
  induction l as [|[k v] l IH]; intros pre Hobj; [done|]. csimpl.
  assert (list_find (λ kv, kv.1 = k) obj = Some (length pre, (k, v))) as ->.
  { apply list_find_Some. split_and!.
    - rewrite Hobj. by rewrite lookup_app_r, Nat.sub_diag by lia.
    - done.
    - intros j [k' v'] Hj Hlt Heq. simpl in Heq. subst k'.
      rewrite Hobj in Hj, Hnodup. rewrite lookup_app_l in Hj by done.
      rewrite fmap_app in Hnodup.
      apply NoDup_app in Hnodup as (_ & Hdisj & _).
      apply (Hdisj k); [|csimpl; by left].
      apply list_elem_of_fmap. exists (k, v'). split; [done|].
      by eapply list_elem_of_lookup_2. }
  simpl. f_equal. apply (IH (pre ++ [(k, v)])). by rewrite <- app_assoc.
Qed.

Lemma sort_sorted_id {A} (cmp : A → A → Z) (l : list A) :
  Sorted (λ a b, cmp a b ≤ 0) l → Js.sort cmp l = l.
Proof.
  induction 1 as [|x l Hsorted IH Hhd]; simpl; [done|]. rewrite IH.
  destruct Hhd as [|y l' Hxy]; simpl; [done|].
  by rewrite (proj2 (Z.ltb_ge _ _)) by lia.
Qed.

Lemma StronglySorted_impl_elem {A} (R R' : relation A) (l : list A) :
  (∀ a b, a ∈ l → b ∈ l → R a b → R' a b) →
  StronglySorted R l → StronglySorted R' l.
Proof.
  intros Himpl Hsorted.
  induction Hsorted as [|x l Hsorted IH Hall]; constructor.
  - apply IH. intros a b Ha Hb. apply Himpl; by right.
  - apply Forall_forall. intros y Hy. rewrite Forall_forall in Hall.
    apply Himpl; [by left | by right | by apply Hall].
Qed.

Lemma set_fresh {V : Type} (k : Z) (v : V) (obj : list (Z * V)) :
  k ∉ obj.*1 → Js.set k v obj = obj ++ [(k, v)].
Proof.
  induction obj as [|[k' v'] obj IH]; csimpl; [done|].
  intros [Hne Hk]%not_elem_of_cons.
  rewrite (proj2 (Z.eqb_neq k' k)) by done. by rewrite IH.
Qed.

Lemma store_fresh {V : Type} (writes obj : list (Z * V)) :
  NoDup (obj.*1 ++ writes.*1) → store obj writes = obj ++ writes.
Proof.
  revert obj. induction writes as [|[k v] writes IH]; intros obj Hnodup.
  { by rewrite app_nil_r. }
  unfold store in *. csimpl in *.
  assert (k ∉ obj.*1) as Hk.
  { apply NoDup_app in Hnodup as (_ & Hdisj & _).
    intros Hin. apply (Hdisj k Hin). by left. }
  rewrite set_fresh by done. rewrite IH; [by rewrite <- app_assoc|].
  rewrite fmap_app. csimpl. rewrite <- app_assoc. exact Hnodup.
Qed.

Section ChartOfStrict.
Context `{JsArith}.

Lemma growth_chain_downloads (prev : Strict.DataPoint)
    (points : list Strict.DataPoint) :
  (λ kv, Strict.h_downloads kv.2) <$> growth_chain prev points
  = Strict.downloads <$> points.
Proof.
  revert prev. induction points as [|p l IH]; intros prev; csimpl; [done|].
  by rewrite IH.
Qed.

Lemma growth_writes_downloads (points : list Strict.DataPoint) :
  (λ kv, Strict.h_downloads kv.2) <$> growth_writes points
  = Strict.downloads <$> points.
Proof. destruct points; [done|]. csimpl. by rewrite growth_chain_downloads. Qed.

Lemma strict_run_points_by_date (show : string → option Snapshot)
    (pluginName : string) (commits : list CommitRecord) :
  Sorted (λ a b, Render.by_date a b ≤ 0)
         ((λ kv, Render.point_of (file_entry kv.2))
            <$> Strict.run show pluginName commits).
Proof.
  apply StronglySorted_Sorted.
  eapply (StronglySorted_fmap
            _ (λ a b, Strict.h_date a.2 ≤ Strict.h_date b.2)).
  { intros a b Hab.
    unfold Render.by_date, Render.point_of, file_entry, ms_per_day.
    cbn [Render.date Render.f_date]. lia. }
  eapply StronglySorted_impl_elem;
    [|apply (StronglySorted_fmap_inv fst Z.lt),
            strict_run_keys_ascending].
  intros [k1 e1] [k2 e2] H1 H2 Hlt. simpl in *.
  apply strict_run_entry in H1 as (c1 & _ & _ & _ & _ & _ & -> & -> & _).
  apply strict_run_entry in H2 as (c2 & _ & _ & _ & _ & _ & -> & -> & _).
  unfold date_of, ms_per_day. apply Z.div_le_mono; lia.
Qed.

Lemma validData_timestamps_NoDup (show : string → option Snapshot)
    (pluginName : string) (commits : list CommitRecord) :
  NoDup (c_timestamp <$> commits) →
  NoDup (Strict.timestamp
           <$> Strict.validData
                 (Strict.anomaly_filter
                    (Strict.sorted_raw show pluginName commits))).
Proof.
  intros Hnodup.
  eapply sublist_NoDup; [|apply fmap_sublist, validData_sublist].
  unfold Strict.sorted_raw. rewrite sort_perm.
  destruct (collect_timestamps show pluginName commits
              (Strict.mkCollected [] [])) as (points & Hpoints & Hsub).
  unfold Strict.collect. rewrite Hpoints. simpl.
  by eapply sublist_NoDup.
Qed.

Lemma history_file_points (show : string → option Snapshot)
    (pluginName : string) (commits : list CommitRecord) :
  Forall (λ c, 0 ≤ c_timestamp c) commits →
  Render.dataPoints (history_file (Strict.run show pluginName commits))
  = (λ kv, Render.point_of (file_entry kv.2))
      <$> Strict.run show pluginName commits.
Proof.
  intros Hpos.
  destruct (strict_run_enumeration show pluginName commits Hpos)
    as [Hkeys Hasc].
  assert (NoDup (Strict.run show pluginName commits).*1) as Hnodup.
  { rewrite Hkeys in Hasc. clear Hkeys.
    induction Hasc as [|x l _ IH Hall]; constructor; [|done].
    intros Hx. rewrite Forall_forall in Hall. specialize (Hall x Hx). lia. }
  unfold Render.dataPoints, history_file.
  rewrite entries_of_id by done. rewrite <- list_fmap_compose.
  apply sort_sorted_id, strict_run_points_by_date.
Qed.

Lemma dailyGrowth_listed (e : Strict.HistoryEntry) :
  is_Some (Render.versions (Render.point_of (file_entry e)) !! "dailyGrowth").
Proof.
  simpl. rewrite versions_inclusive_lookup. simpl. unfold data_object.
  apply lookup_union_is_Some. right.
  rewrite lookup_insert_ne by done. by rewrite lookup_singleton_eq.
Qed.

(** X16.  The chart script on the file written by the strict script, for
    commits with non-negative timestamps: its data points are the
    entries of the history in the order written, its sort by date moves
    nothing, and the download series it plots is that of the history;
    when no two commits share a timestamp this is the series of the
    validated points from oldest to newest. *)
Theorem chart_reads_strict_history (show : string → option Snapshot)
    (pluginName : string) (commits : list CommitRecord) :
  Forall (λ c, 0 ≤ c_timestamp c) commits →
  let history := Strict.run show pluginName commits in
  let points := Render.dataPoints (history_file history) in
  points = (λ kv, Render.point_of (file_entry kv.2)) <$> history
  ∧ Render.downloadCounts points
    = (λ kv, Strict.h_downloads kv.2) <$> history
  ∧ (NoDup (c_timestamp <$> commits) →
     Render.downloadCounts points
     = Strict.downloads
         <$> reverse (Strict.validData
                        (Strict.anomaly_filter
                           (Strict.sorted_raw show pluginName commits)))).
Proof.
  intros Hpos history points.
  assert (points = (λ kv, Render.point_of (file_entry kv.2)) <$> history)
    as Hpoints by by apply history_file_points.
  assert (Render.downloadCounts points
          = (λ kv, Strict.h_downloads kv.2) <$> history) as Hcounts.
  { rewrite Hpoints. unfold Render.downloadCounts.
    rewrite <- list_fmap_compose. apply list_fmap_ext.
    intros i [k e] Hke. simpl.
    unfold downloads_of, data_object.
    apply list_elem_of_lookup_2, strict_run_entry in Hke
      as (c & sd & pd & _ & _ & _ & _ & _ & _ & Hversions).
    rewrite lookup_union_r.
    - rewrite lookup_insert_eq. simpl. by destruct (Strict.h_downloads e).
    - by rewrite Hversions, versions_strict_lookup. }
  split_and!; [done | done |].
  intros Hdistinct. rewrite Hcounts. unfold history, Strict.run.
  rewrite build_history_writes, store_fresh.
  - by rewrite app_nil_l, growth_writes_downloads.
  - rewrite app_nil_l, growth_writes_keys, fmap_reverse.
    rewrite reverse_Permutation. by apply validData_timestamps_NoDup.
Qed.

(** X19.  The growth field becomes a version.  Because the chart script
    removes only [downloads] and [updated] from the data of an entry, on
    every non-empty history written by the strict script it records a
    release named [dailyGrowth] at the oldest data point, with that
    point's download count. *)
Theorem growth_field_charted_as_version (show : string → option Snapshot)
    (pluginName : string) (commits : list CommitRecord) :
  Forall (λ c, 0 ≤ c_timestamp c) commits →
  let history := Strict.run show pluginName commits in
  let rel := Render.releases (Render.dataPoints (history_file history)) in
  ∀ oldest, head history = Some oldest →
    ∃ r, r ∈ Render.versionReleases rel
         ∧ Render.version r = "dailyGrowth"
         ∧ Render.index r = 0%nat
         ∧ Render.r_downloads r = Strict.h_downloads oldest.2.
Proof.
  intros Hpos history rel [k e] Holdest.
  pose proof (history_file_points show pluginName commits Hpos) as Hpoints.
  fold history in Hpoints.
  set (points := Render.dataPoints (history_file history)) in *.
  assert (points !! 0%nat = Some (Render.point_of (file_entry e))) as Hfirst.
  { rewrite Hpoints. destruct history as [|[k' e'] rest]; by simplify_eq/=. }
  destruct (releases_inv_final points)
    as (_ & _ & Hproc & _ & _ & Hreleases & Hseen).
  fold rel in Hproc, Hreleases, Hseen.
  assert ("dailyGrowth" ∈ Render.version <$> Render.versionReleases rel)
    as (r & Hversion & Hr)%list_elem_of_fmap.
  { apply Hproc.
    apply (Hseen 0%nat (Render.point_of (file_entry e)));
      [by eapply lookup_lt_Some | done | apply dailyGrowth_listed]. }
  rewrite Forall_forall in Hreleases.
  destruct (Hreleases r Hr) as (p & Hp & _ & _ & Hdownloads & Hnone).
  assert (Render.index r = 0%nat) as Hindex.
  { destruct (Render.index r) as [|i] eqn:Hi; [done|].
    specialize (Hnone 0%nat _ ltac:(lia) Hfirst).
    rewrite <- Hversion in Hnone.
    destruct (dailyGrowth_listed e) as [x Hx]. congruence. }
  exists r. split_and!; [done | done | done |].
  rewrite Hindex, Hfirst in Hp. injection Hp as <-.
  rewrite Hdownloads. simpl. unfold downloads_of, data_object.
  destruct (Strict.h_versions e !! "downloads") as [v|] eqn:Hv.
  - apply head_Some_elem_of in Holdest.
    apply strict_run_entry in Holdest
      as (c & sd & pd & _ & _ & _ & _ & _ & _ & Hversions).
    simpl in Hv. by rewrite Hversions, versions_strict_lookup in Hv.
  - rewrite lookup_union_r by done.
    rewrite lookup_insert_eq. simpl. by destruct (Strict.h_downloads e).
Qed.
End ChartOfStrict.

Lemma chart_reads_strict_history_witness :
  Render.downloadCounts
    (Render.dataPoints
       (history_file (@Strict.run exact_arith scenario_repo "p"
                        scenario_commits)))
  = [100; 300; 500].
Proof.
  assert (Forall (λ c, 0 ≤ c_timestamp c) scenario_commits) as Hpos.
  { repeat constructor; by vm_compute. }
  destruct (@chart_reads_strict_history exact_arith scenario_repo "p"
              scenario_commits Hpos) as (_ & _ & Hcounts).
  rewrite Hcounts; [reflexivity|].
  apply (bool_decide_unpack _). by vm_compute.
Defined.

(** ** Independence of the strict script from the order of the commits *)

Lemma collect_without_break (show : string → option Snapshot)
    (pluginName : string) (commits : list CommitRecord) (s : Strict.Collected) :
  (∀ c statsData, c ∈ commits → show (c_hash c) = Some statsData →
                  is_Some (statsData !! pluginName)) →
  Strict.rawData (for_of (Strict.body show pluginName) s commits)
  = Strict.rawData s ++ omap (point_read show pluginName) commits.
Proof.
  revert s. induction commits as [|c cs IH]; intros s Hpresent; csimpl.
  { by rewrite app_nil_r. }
  unfold Strict.body, point_read at 1.
  destruct (show (c_hash c)) as [statsData|] eqn:Hshow; csimpl.
  - destruct (Hpresent c statsData) as [pluginData Hplugin%plugin_of_own];
      [by left | done |].
    rewrite Hplugin. csimpl. rewrite IH.
    + simpl. by rewrite <- app_assoc.
    + intros c' sd' Hc'. apply Hpresent. by right.
  - rewrite IH; [done|]. intros c' sd' Hc'. apply Hpresent. by right.
Qed.

Lemma point_read_timestamps (show : string → option Snapshot)
    (pluginName : string) (commits : list CommitRecord) :
  Strict.timestamp <$> omap (point_read show pluginName) commits
  `sublist_of` c_timestamp <$> commits.
Proof.
  induction commits as [|c cs IH]; csimpl; [constructor|].
  unfold point_read at 1.
  destruct (show (c_hash c)) as [statsData|]; csimpl;
    [|by apply sublist_cons].
  destruct (plugin_of statsData pluginName) as [pluginData|]; csimpl;
    [by apply sublist_skip | by apply sublist_cons].
Qed.

Lemma sort_newest_first_unique (l1 l2 : list Strict.DataPoint) :
  l1 ≡ₚ l2 → NoDup (Strict.timestamp <$> l1) →
  Js.sort Strict.newest_first l1 = Js.sort Strict.newest_first l2.
Proof.
  intros Hperm Hnodup.
  assert (∀ l, NoDup (Strict.timestamp <$> l) →
               StronglySorted
                 (λ a b, Strict.timestamp b < Strict.timestamp a)
                 (Js.sort Strict.newest_first l)) as Hstrict.
  { intros l Hl. eapply StronglySorted_weaken;
      [|apply (StronglySorted_strict Strict.timestamp (λ x y, y ≤ x))].
    - simpl. lia.
    - apply Sorted_StronglySorted; [intros x y z; lia|].
      apply sort_Sorted; unfold Strict.newest_first;
        first [intros x y z ? ?; lia | intros x y; lia].
    - by rewrite sort_perm. }
  apply (StronglySorted_unique_strong
           (λ a b, Strict.timestamp b < Strict.timestamp a)).
  - intros x y _ _. lia.
  - by apply Hstrict.
  - apply Hstrict. by rewrite <- Hperm.
  - by rewrite !sort_perm.
Qed.

Section OrderIndependence.
Context `{JsArith}.

(** X17.  The strict script does not depend on the order in which the
    commits are listed: when no two commits share a timestamp and no
    readable snapshot lacks the plugin, every reordering of the commits
    yields the same validated points and the same history. *)
Theorem strict_order_independent (show : string → option Snapshot)
    (pluginName : string) (commits commits' : list CommitRecord) :
  commits ≡ₚ commits' →
  NoDup (c_timestamp <$> commits) →
  (∀ c statsData, c ∈ commits → show (c_hash c) = Some statsData →
                  is_Some (statsData !! pluginName)) →
  Strict.sorted_raw show pluginName commits
  = Strict.sorted_raw show pluginName commits'
  ∧ Strict.run show pluginName commits = Strict.run show pluginName commits'.
Proof.
  intros Hperm Hnodup Hpresent.
  assert (Strict.sorted_raw show pluginName commits
          = Strict.sorted_raw show pluginName commits') as Hraw.
  { unfold Strict.sorted_raw, Strict.collect.
    rewrite (collect_without_break show pluginName commits) by done.
    rewrite (collect_without_break show pluginName commits')
      by (intros c sd Hc; apply Hpresent; by rewrite Hperm).
    simpl. apply sort_newest_first_unique; [by rewrite Hperm|].
    eapply sublist_NoDup; [exact Hnodup|apply point_read_timestamps]. }
  split; [done|]. unfold Strict.run. by rewrite Hraw.
Qed.
End OrderIndependence.

Lemma growth_field_charted_as_version_witness :
  ∃ r, r ∈ Render.versionReleases
             (Render.releases
                (Render.dataPoints
                   (history_file (@Strict.run exact_arith scenario_repo "p"
                                    scenario_commits))))
       ∧ Render.version r = "dailyGrowth"
       ∧ Render.index r = 0%nat
       ∧ Render.r_downloads r = 100.
Proof.
  assert (Forall (λ c, 0 ≤ c_timestamp c) scenario_commits) as Hpos.
  { repeat constructor; by vm_compute. }
  exact (@growth_field_charted_as_version exact_arith scenario_repo "p"
           scenario_commits Hpos _ eq_refl).
Defined.

Lemma strict_order_independent_witness :
  @Strict.run exact_arith scenario_repo "p" scenario_commits
  = @Strict.run exact_arith scenario_repo "p" (reverse scenario_commits).
Proof.
  refine (proj2 (@strict_order_independent exact_arith scenario_repo "p"
                   scenario_commits (reverse scenario_commits) _ _ _)).
  - symmetry. apply reverse_Permutation.
  - apply (bool_decide_unpack _). by vm_compute.
  - intros c sd Hc Hshow.
    unfold scenario_commits in Hc.
    apply elem_of_cons in Hc as [->|Hc];
      [|apply elem_of_cons in Hc as [->|Hc];
        [|apply list_elem_of_singleton in Hc as ->]];
      vm_compute in Hshow; injection Hshow as <-; eexists; reflexivity.
Defined.

(** ** The date range of the chart *)


